(** * FecalEncoder: the repair-symbol encoder of the fecal erasure code

    A shallow embedding of [src/FecalEncoder.cpp] ([Encoder::Initialize],
    [Encoder::Encode] and the two [EncoderAppDataWindow] helpers) together
    with the properties its specification states about them.

    Conventions.
    - C [unsigned] values are [Z] with the 32-bit wrap-around written out
      ([wrap32]) where the code computes with them.
    - A byte buffer owned by the encoder is a [list Z]; a null [Data]
      pointer is [None].
    - A pointer into caller memory ([const uint8_t*]) carries no length in
      C: it is modelled as the view [offset |-> byte] of the memory that
      starts at the address, so that a read past the logical end of a
      column returns whatever the caller's memory holds there.
    - Undefined behaviour (null dereference, access outside an owned
      buffer or outside the [OriginalData] vector, division by zero) is
      the result [None]. *)

From Stdlib Require Import ZArith List Bool Lia.
Import ListNotations.
Local Open Scope Z_scope.

Set Implicit Arguments.

(** ** The undefined-behaviour monad *)

Definition bind {A B : Type} (c : option A) (k : A -> option B) : option B :=
  match c with
  | Some a => k a
  | None => None
  end.

Notation "x <- c ;; k" := (bind c (fun x => k))
  (at level 61, c at next level, right associativity).
Notation "' pat <- c ;; k" := (bind c (fun x => match x with pat => k end))
  (at level 61, pat pattern, c at next level, right associativity).

(** [for (i = lo; i < lo + fuel; ++i) body], with the loop state threaded
    through and undefined behaviour propagated. *)
Fixpoint iterate {S : Type} (body : Z -> S -> option S) (i : Z) (fuel : nat)
  (s : S) : option S :=
  match fuel with
  | O => Some s
  | Datatypes.S k => s' <- body i s ;; iterate body (i + 1) k s'
  end.

Definition for_range {S : Type} (lo hi : Z) (body : Z -> S -> option S)
  (s : S) : option S :=
  iterate body lo (Z.to_nat (hi - lo)) s.

(** ** Machine integers *)

Definition wrap32 (z : Z) : Z := z mod 2 ^ 32.

(** ** Memory *)

(** A borrowed pointer into caller memory. *)
Definition ptr : Type := nat -> Z.

(** The [bytes] bytes found at a borrowed pointer. *)
Definition read (p : ptr) (bytes : Z) : list Z :=
  map p (seq 0 (Z.to_nat bytes)).

(** [bytes] bytes starting at the head of [buf] lie inside [buf]. *)
Definition fits (bytes : Z) (buf : list Z) : bool :=
  (0 <=? bytes) && (bytes <=? Z.of_nat (length buf)).

(** [memcpy(dst, src, n)]. *)
Definition memcpy (dst src : list Z) (n : Z) : option (list Z) :=
  if fits n dst && fits n src
  then Some (firstn (Z.to_nat n) src ++ skipn (Z.to_nat n) dst)
  else None.

(** [memset(dst + off, c, n)]. *)
Definition memset (dst : list Z) (off c n : Z) : option (list Z) :=
  if (0 <=? off) && (0 <=? n) && (off + n <=? Z.of_nat (length dst))
  then Some (firstn (Z.to_nat off) dst ++ repeat c (Z.to_nat n)
             ++ skipn (Z.to_nat (off + n)) dst)
  else None.

(** [x[i] ^= y[i]] for every [i] below the length of [y]; the rest of [x]
    is left as it is. *)
Fixpoint xor_mem (x y : list Z) : list Z :=
  match x, y with
  | a :: x', b :: y' => Z.lxor a b :: xor_mem x' y'
  | _, _ => x
  end.

(** ** Result codes and the output view *)

Inductive FecalResult : Type :=
| Fecal_Success
| Fecal_InvalidInput
| Fecal_OutOfMemory.

(** What [FecalSymbol::Data] points at: something of the caller's, or the
    encoder's own [Sum] workspace. *)
Inductive DataRef : Type :=
| CallerData
| SumData.

Record FecalSymbol : Type := mkSymbol {
  Data : DataRef;
  Bytes : Z;
  Index : Z
}.

(** ** The primitives the encoder is built on

    [FecalEncoder.cpp] uses constants, the GF(256) multiplication table,
    the PCG generator and the three code-construction functions, all of
    which are declared outside it. They are taken as parameters. The two
    counts are divisors in the code ([column % kColumnLaneCount],
    [.. / kPairAddRate]), hence positive. The two non-zero conditions are
    the Code Descriptor's contract. *)
Class CodeDescriptor : Type := {
  kColumnLaneCount : positive;
  kPairAddRate : positive;
  gf256_mul : Z -> Z -> Z;
  PCGRandom : Type;
  Seed : Z -> Z -> PCGRandom;
  Next : PCGRandom -> Z * PCGRandom;
  GetColumnValue : Z -> Z;
  GetRowValue : Z -> Z;
  GetRowOpcode : Z -> Z -> Z;
  GetColumnValue_nonzero : forall column, GetColumnValue column <> 0;
  GetRowValue_nonzero : forall row, GetRowValue row <> 0
}.

(** [kColumnSumCount], pinned by the [static_assert] in [Initialize]. *)
Definition kColumnSumCount : Z := 3.

Section Fecal.

Context {CD : CodeDescriptor}.

(** *** Field primitives over buffers *)

(** Modelled from the spec: [gf256_sqr] of the GF(256) library, which is
    not under src/: "square(scalar) = scalar * scalar under the field's
    fixed table". *)
Definition gf256_sqr (x : Z) : Z := gf256_mul x x.

(** Modelled from the spec: [gf256_add_mem] of the GF(256) library, which
    is not under src/: "add(dst, src, len) = bytewise XOR". *)
Definition gf256_add_mem (vx vy : list Z) (bytes : Z) : option (list Z) :=
  if fits bytes vx && fits bytes vy
  then Some (xor_mem vx (firstn (Z.to_nat bytes) vy))
  else None.

(** Modelled from the spec: [gf256_add2_mem] of the GF(256) library, which
    is not under src/: two bytewise XOR additions into one destination. *)
Definition gf256_add2_mem (vz vx vy : list Z) (bytes : Z) : option (list Z) :=
  if fits bytes vz && fits bytes vx && fits bytes vy
  then Some (xor_mem (xor_mem vz (firstn (Z.to_nat bytes) vx))
               (firstn (Z.to_nat bytes) vy))
  else None.

(** [z[i] ^= table[y][x[i]]] for every [i] below the length of [x]. *)
Fixpoint muladd_bytes (vz : list Z) (y : Z) (vx : list Z) : list Z :=
  match vz, vx with
  | a :: vz', b :: vx' => Z.lxor a (gf256_mul y b) :: muladd_bytes vz' y vx'
  | _, _ => vz
  end.

(** Modelled from the spec: [gf256_muladd_mem] of the GF(256) library,
    which is not under src/: "mulAdd(dst, scalar, src, len) = dst[i] ^=
    table[scalar][src[i]]". *)
Definition gf256_muladd_mem (vz : list Z) (y : Z) (vx : list Z) (bytes : Z)
  : option (list Z) :=
  if fits bytes vz && fits bytes vx
  then Some (muladd_bytes vz y (firstn (Z.to_nat bytes) vx))
  else None.

(** *** XORSummer *)

(** Modelled from the spec: the [XORSummer] helper declared in
    FecalCommon.h, which is not under src/: "deferred XOR batching" of the
    additions into a destination buffer, with a flush. [DestBuffer] is
    the very buffer the encoder also writes directly, so the two live in
    one record; [Waiting] is the source whose addition is deferred. *)
Record XORSummer : Type := mkSummer {
  DestBuffer : list Z;
  SummerBytes : Z;
  Waiting : option (list Z)
}.

Definition XORSummer_Initialize (dest : list Z) (bytes : Z) : XORSummer :=
  {| DestBuffer := dest; SummerBytes := bytes; Waiting := None |}.

Definition XORSummer_Add (src : list Z) (s : XORSummer) : option XORSummer :=
  match Waiting s with
  | Some w =>
      d <- gf256_add2_mem (DestBuffer s) src w (SummerBytes s) ;;
      Some {| DestBuffer := d; SummerBytes := SummerBytes s; Waiting := None |}
  | None =>
      Some {| DestBuffer := DestBuffer s; SummerBytes := SummerBytes s;
              Waiting := Some src |}
  end.

Definition XORSummer_Finalize (s : XORSummer) : option XORSummer :=
  match Waiting s with
  | Some w =>
      d <- gf256_add_mem (DestBuffer s) w (SummerBytes s) ;;
      Some {| DestBuffer := d; SummerBytes := SummerBytes s; Waiting := None |}
  | None => Some s
  end.

(** A direct write of the encoder into the summer's destination. *)
Definition with_dest (s : XORSummer) (d : list Z) : XORSummer :=
  {| DestBuffer := d; SummerBytes := SummerBytes s; Waiting := Waiting s |}.

(** ** EncoderAppDataWindow *)

Record EncoderAppDataWindow : Type := mkWindow {
  InputCount : Z;
  TotalBytes : Z;
  FinalBytes : Z;
  SymbolBytes : Z;
  (* std::vector<const uint8_t*>; a null slot is None *)
  OriginalData : list (option ptr)
}.

(** Modelled from the spec: [AppDataWindow::SetParameters], declared in
    FecalCommon.h, which is not under src/: "fails with InvalidInput if
    inputCount == 0 or totalBytes == 0. Computes symbolBytes as the
    per-column unit size implied by dividing totalBytes across inputCount
    columns (rounding up), and finalBytes = totalBytes - symbolBytes *
    (inputCount - 1); fails [...] if this yields finalBytes <= 0 or
    overflow" (of the 32-bit [SymbolBytes]). *)
Definition SetParameters (w : EncoderAppDataWindow)
  (input_count total_bytes : Z) : bool * EncoderAppDataWindow :=
  if (input_count =? 0) || (total_bytes =? 0) then (false, w)
  else
    let symbolBytes := (total_bytes + input_count - 1) / input_count in
    let finalBytes := total_bytes - symbolBytes * (input_count - 1) in
    if (finalBytes <=? 0) || (2 ^ 32 <=? symbolBytes) then (false, w)
    else (true, {| InputCount := input_count;
                   TotalBytes := total_bytes;
                   FinalBytes := finalBytes;
                   SymbolBytes := symbolBytes;
                   OriginalData := OriginalData w |}).

(** Modelled from the spec: [AppDataWindow::IsFinalColumn], declared in
    FecalCommon.h, which is not under src/: "true iff i == inputCount - 1". *)
Definition IsFinalColumn (w : EncoderAppDataWindow) (column : Z) : bool :=
  column =? InputCount w - 1.

(** [std::vector::resize]: keep what fits, fill up with null pointers. *)
Definition resize {A : Type} (v : list A) (n : nat) (fill : A) : list A :=
  firstn n v ++ repeat fill (n - length v).

(** [v[i] = x]; outside the vector it is undefined behaviour. *)
Fixpoint vector_set {A : Type} (v : list A) (i : nat) (x : A)
  : option (list A) :=
  match v, i with
  | [], _ => None
  | _ :: t, O => Some (x :: t)
  | h :: t, Datatypes.S k => t' <- vector_set t k x ;; Some (h :: t')
  end.

Definition set_OriginalData (w : EncoderAppDataWindow)
  (v : list (option ptr)) : EncoderAppDataWindow :=
  {| InputCount := InputCount w; TotalBytes := TotalBytes w;
     FinalBytes := FinalBytes w; SymbolBytes := SymbolBytes w;
     OriginalData := v |}.

Definition AllocateOriginals (w : EncoderAppDataWindow)
  : EncoderAppDataWindow :=
  set_OriginalData w (resize (OriginalData w) (Z.to_nat (InputCount w)) None).

(** [input_data] is the caller's array of column pointers. The debug-only
    assertion [InputCount > 0] compiles to nothing in a release build. *)
Definition SetEncoderInput (w : EncoderAppDataWindow) (input_data : nat -> ptr)
  : option EncoderAppDataWindow :=
  v <- for_range 0 (InputCount w)
         (fun ii v => vector_set v (Z.to_nat ii) (Some (input_data (Z.to_nat ii))))
         (OriginalData w) ;;
  Some (set_OriginalData w v).

(** [Window.OriginalData[element]], dereferenced. *)
Definition original_at (w : EncoderAppDataWindow) (element : Z) : option ptr :=
  slot <- nth_error (OriginalData w) (Z.to_nat element) ;; slot.

(** ** Encoder *)

(** [AlignedDataBuffer]: the owned bytes behind [Data], or a null [Data]. *)
Definition AlignedDataBuffer : Type := option (list Z).

Record Encoder : Type := mkEncoder {
  Window : EncoderAppDataWindow;
  (* LaneSums[kColumnLaneCount][kColumnSumCount] *)
  LaneSums : Z -> Z -> AlignedDataBuffer;
  Sum : AlignedDataBuffer;
  Product : AlignedDataBuffer
}.

(** A newly constructed encoder: every [Data] pointer is null. *)
Definition new_Encoder : Encoder :=
  {| Window := {| InputCount := 0; TotalBytes := 0; FinalBytes := 0;
                  SymbolBytes := 0; OriginalData := [] |};
     LaneSums := fun _ _ => None;
     Sum := None;
     Product := None |}.

Definition set_Window (e : Encoder) (w : EncoderAppDataWindow) : Encoder :=
  {| Window := w; LaneSums := LaneSums e; Sum := Sum e; Product := Product e |}.

Definition set_LaneSum (e : Encoder) (laneIndex sumIndex : Z)
  (b : AlignedDataBuffer) : Encoder :=
  {| Window := Window e;
     LaneSums := fun l k =>
       if (l =? laneIndex) && (k =? sumIndex) then b else LaneSums e l k;
     Sum := Sum e; Product := Product e |}.

Definition set_Sum (e : Encoder) (b : AlignedDataBuffer) : Encoder :=
  {| Window := Window e; LaneSums := LaneSums e; Sum := b;
     Product := Product e |}.

Definition set_Product (e : Encoder) (b : AlignedDataBuffer) : Encoder :=
  {| Window := Window e; LaneSums := LaneSums e; Sum := Sum e;
     Product := b |}.

(** *** Allocation *)

(** The buffers [Initialize] allocates. *)
Inductive BufferId : Type :=
| LaneSumBuffer (laneIndex sumIndex : Z)
| SumBuffer
| ProductBuffer.

(** What the allocator answers when asked for a buffer: nothing (the
    allocation fails), or a fresh block whose initial contents are
    whatever the memory held. *)
Definition allocator : Type := BufferId -> option ptr.

(** Modelled from the spec: [AlignedDataBuffer::Allocate], declared in
    FecalCommon.h, which is not under src/: the buffer is "wholesale
    replaced" by a fresh block of [bytes] bytes; when the allocation
    fails [Data] is null and the call reports failure. *)
Definition Allocate (fresh : option ptr) (bytes : Z)
  : bool * AlignedDataBuffer :=
  match fresh with
  | Some garbage => (true, Some (read garbage bytes))
  | None => (false, None)
  end.

(** Loops that an early [return] can leave. *)
Inductive flow (S : Type) : Type :=
| Continue (s : S)
| Return (r : FecalResult) (s : S).

Arguments Continue {S} s.
Arguments Return {S} r s.

Fixpoint iterate_flow {S : Type} (body : Z -> S -> option (flow S)) (i : Z)
  (fuel : nat) (s : S) : option (flow S) :=
  match fuel with
  | O => Some (Continue s)
  | Datatypes.S k =>
      f <- body i s ;;
      match f with
      | Continue s' => iterate_flow body (i + 1) k s'
      | Return r s' => Some (Return r s')
      end
  end.

Definition for_range_flow {S : Type} (lo hi : Z)
  (body : Z -> S -> option (flow S)) (s : S) : option (flow S) :=
  iterate_flow body lo (Z.to_nat (hi - lo)) s.

(** ** Encoder::Initialize *)

(** The inner allocation loop: one lane's sums, allocated and cleared. *)
Definition allocate_sum (malloc : allocator) (symbolBytes laneIndex : Z)
  (sumIndex : Z) (e : Encoder) : option (flow Encoder) :=
  let (ok, buffer) :=
    Allocate (malloc (LaneSumBuffer laneIndex sumIndex)) symbolBytes in
  let e := set_LaneSum e laneIndex sumIndex buffer in
  if negb ok then Some (Return Fecal_OutOfMemory e)
  else
    data <- buffer ;;
    cleared <- memset data 0 0 symbolBytes ;;
    Some (Continue (set_LaneSum e laneIndex sumIndex (Some cleared))).

Definition allocate_lane (malloc : allocator) (symbolBytes : Z)
  (laneIndex : Z) (e : Encoder) : option (flow Encoder) :=
  for_range_flow 0 kColumnSumCount (allocate_sum malloc symbolBytes laneIndex) e.

Definition allocate_lane_sums (malloc : allocator) (symbolBytes : Z)
  (e : Encoder) : option (flow Encoder) :=
  for_range_flow 0 (Zpos kColumnLaneCount) (allocate_lane malloc symbolBytes) e.

(** The workspace: [!Sum.Allocate(..) || !Product.Allocate(..)], the
    second allocation being attempted only when the first succeeded. *)
Definition allocate_workspace (malloc : allocator) (symbolBytes : Z)
  (e : Encoder) : flow Encoder :=
  let (okSum, sum) := Allocate (malloc SumBuffer) symbolBytes in
  let e := set_Sum e sum in
  if negb okSum then Return Fecal_OutOfMemory e
  else
    let (okProduct, product) := Allocate (malloc ProductBuffer) symbolBytes in
    let e := set_Product e product in
    if negb okProduct then Return Fecal_OutOfMemory e
    else Continue e.

(** The body of the column loop. *)
Definition add_column (input_data : nat -> ptr) (symbolBytes : Z)
  (column : Z) (e : Encoder) : option Encoder :=
  let data := input_data (Z.to_nat column) in
  let laneIndex := column mod Zpos kColumnLaneCount in
  let CX := GetColumnValue column in
  let CX2 := gf256_sqr CX in
  (* Sum[0] += Data *)
  sum0 <- LaneSums e laneIndex 0 ;;
  sum0 <- gf256_add_mem sum0 (read data symbolBytes) symbolBytes ;;
  let e := set_LaneSum e laneIndex 0 (Some sum0) in
  (* Sum[1] += CX * Data *)
  sum1 <- LaneSums e laneIndex 1 ;;
  sum1 <- gf256_muladd_mem sum1 CX (read data symbolBytes) symbolBytes ;;
  let e := set_LaneSum e laneIndex 1 (Some sum1) in
  (* Sum[2] += CX^2 * Data *)
  sum2 <- LaneSums e laneIndex 2 ;;
  sum2 <- gf256_muladd_mem sum2 CX2 (read data symbolBytes) symbolBytes ;;
  Some (set_LaneSum e laneIndex 2 (Some sum2)).

Definition Initialize (malloc : allocator) (input_count : Z)
  (input_data : nat -> ptr) (total_bytes : Z) (e : Encoder)
  : option (FecalResult * Encoder) :=
  (* Validate input and set parameters *)
  let (valid, w) := SetParameters (Window e) input_count total_bytes in
  if negb valid then Some (Fecal_InvalidInput, e)
  else
    w <- SetEncoderInput (AllocateOriginals w) input_data ;;
    let e := set_Window e w in
    let symbolBytes := SymbolBytes w in
    (* Allocate lane sums *)
    lanes <- allocate_lane_sums malloc symbolBytes e ;;
    match lanes with
    | Return r e => Some (r, e)
    | Continue e =>
        (* Allocate workspace *)
        match allocate_workspace malloc symbolBytes e with
        | Return r e => Some (r, e)
        | Continue e =>
            (* For each input column: *)
            e <- for_range 0 input_count (add_column input_data symbolBytes) e ;;
            Some (Fecal_Success, e)
        end
    end.

(** ** Encoder::Encode *)

(** [prng.Next() % count]. *)
Definition next_element (count : Z) (prng : PCGRandom)
  : option (Z * PCGRandom) :=
  if count =? 0 then None
  else let (r, prng') := Next prng in Some (r mod count, prng').

(** "Sum = Original[element]": the copying first iteration. *)
Definition copy_original (w : EncoderAppDataWindow) (element : Z)
  (original : ptr) (output : list Z) : option (list Z) :=
  if IsFinalColumn w element then
    o <- memcpy output (read original (FinalBytes w)) (FinalBytes w) ;;
    memset o (FinalBytes w) 0 (wrap32 (SymbolBytes w - FinalBytes w))
  else
    memcpy output (read original (SymbolBytes w)) (SymbolBytes w).

(** "Sum += Original[element]": the later iterations. The final column is
    added into the destination at once, any other column goes through the
    summer. *)
Definition add_original (w : EncoderAppDataWindow) (element : Z)
  (original : ptr) (s : XORSummer) : option XORSummer :=
  if IsFinalColumn w element then
    d <- gf256_add_mem (DestBuffer s) (read original (FinalBytes w))
           (FinalBytes w) ;;
    Some (with_dest s d)
  else
    XORSummer_Add (read original (SummerBytes s)) s.

(** The body of the loop over the remaining pairs. *)
Definition sparse_step (w : EncoderAppDataWindow) (i : Z)
  (st : PCGRandom * XORSummer * XORSummer)
  : option (PCGRandom * XORSummer * XORSummer) :=
  let '(prng, sum, prod) := st in
  let count := InputCount w in
  '(element1, prng) <- next_element count prng ;;
  original1 <- original_at w element1 ;;
  '(elementRX, prng) <- next_element count prng ;;
  originalRX <- original_at w elementRX ;;
  sum <- add_original w element1 original1 sum ;;
  prod <- add_original w elementRX originalRX prod ;;
  Some (prng, sum, prod).

(** [if (opcode & mask) summer.Add(LaneSums[laneIndex][sumIndex].Data)],
    followed by [mask <<= 1]. *)
Definition masked_add (e : Encoder) (laneIndex opcode : Z) (sumIndex : Z)
  (st : Z * XORSummer) : option (Z * XORSummer) :=
  let (mask, summer) := st in
  summer <-
    (if Z.land opcode mask =? 0 then Some summer
     else data <- LaneSums e laneIndex sumIndex ;; XORSummer_Add data summer) ;;
  Some (wrap32 (Z.shiftl mask 1), summer).

(** The body of the loop over the lanes. *)
Definition lane_step (e : Encoder) (row : Z) (laneIndex : Z)
  (st : XORSummer * XORSummer) : option (XORSummer * XORSummer) :=
  let (sum, prod) := st in
  let opcode := GetRowOpcode laneIndex row in
  let mask := 1 in
  (* Sum += Random Lanes *)
  '(mask, sum) <-
    for_range 0 kColumnSumCount (masked_add e laneIndex opcode) (mask, sum) ;;
  (* Product += Random Lanes *)
  '(_, prod) <-
    for_range 0 kColumnSumCount (masked_add e laneIndex opcode) (mask, prod) ;;
  Some (sum, prod).

(** [pairCount], computed in 32-bit unsigned arithmetic. *)
Definition pairCount (w : EncoderAppDataWindow) : Z :=
  wrap32 (InputCount w + Zpos kPairAddRate - 1) / Zpos kPairAddRate.

(** The sparse phase: the unrolled first pair, then the loop over the
    remaining pairs. *)
Definition sparse_phase (row : Z) (w : EncoderAppDataWindow)
  (outputSum outputProduct : list Z) : option (XORSummer * XORSummer) :=
  let count := InputCount w in
  let symbolBytes := SymbolBytes w in
  let prng := Seed row count in
  (* Unrolled first loop: *)
  '(element1, prng) <- next_element count prng ;;
  original1 <- original_at w element1 ;;
  '(elementRX, prng) <- next_element count prng ;;
  originalRX <- original_at w elementRX ;;
  outputSum <- copy_original w element1 original1 outputSum ;;
  outputProduct <- copy_original w elementRX originalRX outputProduct ;;
  let sum := XORSummer_Initialize outputSum symbolBytes in
  let prod := XORSummer_Initialize outputProduct symbolBytes in
  '(_, sum, prod) <-
    for_range 1 (pairCount w) (sparse_step w) (prng, sum, prod) ;;
  Some (sum, prod).

(** The dense phase: the loop over the lanes. *)
Definition dense_phase (row : Z) (e : Encoder) (st : XORSummer * XORSummer)
  : option (XORSummer * XORSummer) :=
  for_range 0 (Zpos kColumnLaneCount) (lane_step e row) st.

Definition Encode (row : Z) (symbol : FecalSymbol) (e : Encoder)
  : option (FecalResult * Encoder * FecalSymbol) :=
  match Product e with
  | None =>
      (* If encoder is not initialized: *)
      Some (Fecal_InvalidInput, e, symbol)
  | Some outputProduct =>
      outputSum <- Sum e ;;
      st <- sparse_phase row (Window e) outputSum outputProduct ;;
      '(sum, prod) <- dense_phase row e st ;;
      sum <- XORSummer_Finalize sum ;;
      prod <- XORSummer_Finalize prod ;;
      (* Sum += RX * Product *)
      outputSum <- gf256_muladd_mem (DestBuffer sum) (GetRowValue row)
                     (DestBuffer prod) (SymbolBytes (Window e)) ;;
      (* Output sum will be what user reads from *)
      Some (Fecal_Success,
            set_Product (set_Sum e (Some outputSum)) (Some (DestBuffer prod)),
            {| Data := SumData;
               Bytes := SymbolBytes (Window e);
               Index := row |})
  end.

(** The bytes a symbol view shows. *)
Definition symbol_bytes (e : Encoder) (symbol : FecalSymbol)
  : option (list Z) :=
  match Data symbol with
  | SumData => option_map (firstn (Z.to_nat (Bytes symbol))) (Sum e)
  | CallerData => None
  end.

(** ** What the encoder computes, stated without the machinery *)

(** [Some data] of exactly [bytes] bytes. *)
Definition has_size (bytes : Z) (b : AlignedDataBuffer) : bool :=
  match b with
  | Some data => Z.of_nat (length data) =? bytes
  | None => false
  end.

Definition is_set (slot : option ptr) : bool :=
  match slot with
  | Some _ => true
  | None => false
  end.

(** The lane indices [0 .. kColumnLaneCount - 1] and the sum indices. *)
Definition lanes : list Z := map Z.of_nat (seq 0 (Pos.to_nat kColumnLaneCount)).
Definition sums : list Z := [0; 1; 2].

(** The Ready state: the window describes at least one column, every
    column pointer is bound, and every lane sum and both workspace buffers
    are allocated with [SymbolBytes] bytes. A successful [Initialize]
    establishes it and [Encode] keeps it. *)
Definition Ready (e : Encoder) : bool :=
  let w := Window e in
  (1 <=? InputCount w) && (InputCount w <? 2 ^ 32)
  && (0 <? FinalBytes w) && (FinalBytes w <=? SymbolBytes w)
  && (SymbolBytes w <? 2 ^ 32)
  && (Z.of_nat (length (OriginalData w)) =? InputCount w)
  && forallb is_set (OriginalData w)
  && forallb (fun l => forallb (fun k => has_size (SymbolBytes w) (LaneSums e l k))
                         sums) lanes
  && has_size (SymbolBytes w) (Sum e)
  && has_size (SymbolBytes w) (Product e).

(** [ceil(a / b)] over the integers. *)
Definition ceil_div (a b : Z) : Z := (a + b - 1) / b.

(** How many times the body of the sparse phase runs: the unrolled first
    pair and the iterations [1 .. pairCount - 1] of the loop. *)
Definition sparse_iterations (w : EncoderAppDataWindow) : nat :=
  Datatypes.S (Z.to_nat (pairCount w - 1)).

(** The pairs [(element1, elementRX)] the generator yields, in the order
    they are drawn. *)
Fixpoint draws (count : Z) (prng : PCGRandom) (pairs : nat) : list (Z * Z) :=
  match pairs with
  | O => []
  | Datatypes.S k =>
      let (r1, prng1) := Next prng in
      let (rX, prng2) := Next prng1 in
      (r1 mod count, rX mod count) :: draws count prng2 k
  end.

(** A column read as a full symbol: the final column is [FinalBytes] long
    and zero beyond. *)
Definition column_symbol (w : EncoderAppDataWindow) (element : Z) : list Z :=
  match original_at w element with
  | Some original =>
      if IsFinalColumn w element
      then read original (FinalBytes w)
           ++ repeat 0 (Z.to_nat (SymbolBytes w - FinalBytes w))
      else read original (SymbolBytes w)
  | None => []
  end.

(** Every term XORed onto a base, one after the other. *)
Definition xor_all (base : list Z) (terms : list (list Z)) : list Z :=
  fold_left xor_mem terms base.

(** The first drawn column, with every later one XORed onto it. *)
Definition sparse_sum (w : EncoderAppDataWindow) (elements : list Z) : list Z :=
  match elements with
  | [] => []
  | first :: rest => xor_all (column_symbol w first) (map (column_symbol w) rest)
  end.

(** What a summer's destination holds once the deferred addition is
    carried out. *)
Definition flushed (s : XORSummer) : list Z :=
  match Waiting s with
  | Some w => xor_mem (DestBuffer s) (firstn (Z.to_nat (SummerBytes s)) w)
  | None => DestBuffer s
  end.

Definition lane_data (e : Encoder) (laneIndex sumIndex : Z) : list Z :=
  match LaneSums e laneIndex sumIndex with
  | Some data => data
  | None => []
  end.

(** The lane sums a row selects: for every lane, those of its sums whose
    bit [base + sumIndex] is set in the lane's opcode. *)
Definition selected (e : Encoder) (row base : Z) : list (list Z) :=
  flat_map
    (fun l => map (lane_data e l)
                (filter (fun k => Z.testbit (GetRowOpcode l row) (base + k)) sums))
    lanes.

(** The two accumulators and the symbol of a row. *)
Definition row_elements (w : EncoderAppDataWindow) (row : Z) : list (Z * Z) :=
  draws (InputCount w) (Seed row (InputCount w)) (sparse_iterations w).

Definition row_sum (e : Encoder) (row : Z) : list Z :=
  xor_all (sparse_sum (Window e) (map fst (row_elements (Window e) row)))
    (selected e row 0).

Definition row_product (e : Encoder) (row : Z) : list Z :=
  xor_all (sparse_sum (Window e) (map snd (row_elements (Window e) row)))
    (selected e row kColumnSumCount).

Definition row_symbol (e : Encoder) (row : Z) : list Z :=
  muladd_bytes (row_sum e row) (GetRowValue row) (row_product e row).

(** The term a column adds to the sum of degree [sumIndex] of its lane. *)
Definition column_term (input_data : nat -> ptr) (symbolBytes : Z)
  (sumIndex column : Z) : list Z :=
  let data := read (input_data (Z.to_nat column)) symbolBytes in
  let CX := GetColumnValue column in
  if sumIndex =? 0 then data
  else if sumIndex =? 1 then map (gf256_mul CX) data
  else map (gf256_mul (gf256_sqr CX)) data.

(** The columns [0 .. input_count - 1] assigned to a lane. *)
Definition lane_columns (input_count laneIndex : Z) : list Z :=
  filter (fun column => column mod Zpos kColumnLaneCount =? laneIndex)
    (map Z.of_nat (seq 0 (Z.to_nat input_count))).

Definition power_sum (input_data : nat -> ptr) (symbolBytes input_count : Z)
  (laneIndex sumIndex : Z) : list Z :=
  xor_all (repeat 0 (Z.to_nat symbolBytes))
    (map (column_term input_data symbolBytes sumIndex)
       (lane_columns input_count laneIndex)).

(** A run of [Encode] calls, one per row. *)
Fixpoint Encode_rows (rows : list Z) (symbol : FecalSymbol) (e : Encoder)
  : option (Encoder * FecalSymbol) :=
  match rows with
  | [] => Some (e, symbol)
  | row :: rest =>
      '(_, e', symbol') <- Encode row symbol e ;;
      Encode_rows rest symbol' e'
  end.

(** The result code of [Encode row] and the bytes the caller then reads
    through the view. *)
Definition Encode_output (row : Z) (symbol : FecalSymbol) (e : Encoder)
  : option (FecalResult * option (list Z)) :=
  '(result, e', symbol') <- Encode row symbol e ;;
  Some (result, symbol_bytes e' symbol').

(** The life of an encoder, with the flag "some [Initialize] has
    succeeded": construction, then [Initialize] calls (with arguments of
    their C types, whatever they return and whatever state they find) and
    [Encode] calls, in any order. *)
Inductive lifecycle : Encoder -> bool -> Prop :=
| lifecycle_new : lifecycle new_Encoder false
| lifecycle_Initialize_invalid
    (e : Encoder) (initialized : bool) (malloc : allocator) (input_count : Z)
    (input_data : nat -> ptr) (total_bytes : Z) (e' : Encoder) :
    lifecycle e initialized ->
    0 <= input_count < 2 ^ 32 ->
    Initialize malloc input_count input_data total_bytes e
    = Some (Fecal_InvalidInput, e') ->
    lifecycle e' initialized
| lifecycle_Initialize_no_memory
    (e : Encoder) (initialized : bool) (malloc : allocator) (input_count : Z)
    (input_data : nat -> ptr) (total_bytes : Z) (e' : Encoder) :
    lifecycle e initialized ->
    0 <= input_count < 2 ^ 32 ->
    Initialize malloc input_count input_data total_bytes e
    = Some (Fecal_OutOfMemory, e') ->
    lifecycle e' initialized
| lifecycle_Initialize_succeeded
    (e : Encoder) (initialized : bool) (malloc : allocator) (input_count : Z)
    (input_data : nat -> ptr) (total_bytes : Z) (e' : Encoder) :
    lifecycle e initialized ->
    0 <= input_count < 2 ^ 32 ->
    Initialize malloc input_count input_data total_bytes e
    = Some (Fecal_Success, e') ->
    lifecycle e' true
| lifecycle_Encode
    (e : Encoder) (initialized : bool) (row : Z) (symbol : FecalSymbol)
    (r : FecalResult) (e' : Encoder) (symbol' : FecalSymbol) :
    lifecycle e initialized ->
    Encode row symbol e = Some (r, e', symbol') ->
    lifecycle e' initialized.

(** The rule for what [Encode row] answers on an encoder, [initialized]
    saying whether the encoder counts as initialized: the call returns;
    it returns InvalidInput exactly when the encoder does not, and then
    the encoder and the caller's symbol are as they were; otherwise it
    returns Success, no other code, and the symbol is the view of the
    encoder's [Sum] buffer, [SymbolBytes] long, with the row as index. *)
Definition refuses_iff_uninitialized (e : Encoder) (initialized : bool)
  (row : Z) (symbol : FecalSymbol) : Prop :=
  exists r e' symbol',
    Encode row symbol e = Some (r, e', symbol')
    /\ (r = Fecal_InvalidInput <-> initialized = false)
    /\ (r = Fecal_InvalidInput -> e' = e /\ symbol' = symbol)
    /\ (r <> Fecal_InvalidInput ->
        r = Fecal_Success
        /\ symbol' = {| Data := SumData;
                        Bytes := SymbolBytes (Window e);
                        Index := row |}
        /\ exists out,
             Sum e' = Some out
             /\ Z.of_nat (length out) = SymbolBytes (Window e)
             /\ symbol_bytes e' symbol' = Some out).

(** Some allocation [Initialize] may attempt is refused. *)
Definition allocation_refused (malloc : allocator) : Prop :=
  (exists l k, 0 <= l < Zpos kColumnLaneCount /\ 0 <= k < kColumnSumCount
               /\ malloc (LaneSumBuffer l k) = None)
  \/ malloc SumBuffer = None
  \/ malloc ProductBuffer = None.

(** No lane sum and no workspace buffer is allocated. *)
Definition buffers_released (e : Encoder) : Prop :=
  (forall l k, 0 <= l < Zpos kColumnLaneCount -> 0 <= k < kColumnSumCount ->
     LaneSums e l k = None)
  /\ Sum e = None /\ Product e = None.

(** An [Initialize] that runs out of memory, gives back every buffer and
    leaves an encoder on which [Encode] is refused. *)
Definition failure_is_clean (malloc : allocator) (input_count : Z)
  (input_data : nat -> ptr) (total_bytes : Z) (e0 : Encoder) : Prop :=
  exists e,
    Initialize malloc input_count input_data total_bytes e0
    = Some (Fecal_OutOfMemory, e)
    /\ buffers_released e
    /\ forall row symbol,
         Encode row symbol e = Some (Fecal_InvalidInput, e, symbol).

(** ** Invariants and intermediate states used in the proofs *)

(** What [Ready] says, as propositions. *)
Record ReadyFacts (e : Encoder) : Prop := {
  ready_count : 1 <= InputCount (Window e) < 2 ^ 32;
  ready_final : 0 < FinalBytes (Window e) <= SymbolBytes (Window e);
  ready_symbol : SymbolBytes (Window e) < 2 ^ 32;
  ready_originals :
    forall element, 0 <= element < InputCount (Window e) ->
    exists original, original_at (Window e) element = Some original;
  ready_lanes :
    forall l k, 0 <= l < Zpos kColumnLaneCount -> 0 <= k < kColumnSumCount ->
    exists data, LaneSums e l k = Some data
                 /\ Z.of_nat (length data) = SymbolBytes (Window e);
  ready_sum :
    exists data, Sum e = Some data
                 /\ Z.of_nat (length data) = SymbolBytes (Window e);
  ready_product :
    exists data, Product e = Some data
                 /\ Z.of_nat (length data) = SymbolBytes (Window e)
}.

(** A summer over a destination of [bytes] bytes whose waiting source, if
    any, is at least as long. *)
Definition summer_ok (bytes : Z) (s : XORSummer) : Prop :=
  SummerBytes s = bytes
  /\ Z.of_nat (length (DestBuffer s)) = bytes
  /\ match Waiting s with
     | Some w => bytes <= Z.of_nat (length w)
     | None => True
     end.

(** The lanes below [i]. *)
Definition lanes_below (i : Z) : list Z := map Z.of_nat (seq 0 (Z.to_nat i)).

(** [selected], for the lanes below [i] only. *)
Definition selected_below (e : Encoder) (row base i : Z) : list (list Z) :=
  flat_map
    (fun l => map (lane_data e l)
                (filter (fun k => Z.testbit (GetRowOpcode l row) (base + k)) sums))
    (lanes_below i).

(** What [Encode] leaves behind: the window and the lane sums as they
    were, the row's symbol in [Sum], the row's product in [Product]. *)
Definition encoded (e : Encoder) (row : Z) : Encoder :=
  set_Product (set_Sum e (Some (row_symbol e row))) (Some (row_product e row)).

(** The pointers the window holds after [AllocateOriginals] and
    [SetEncoderInput]: the caller's, one per column. *)
Definition bound_originals (input_data : nat -> ptr) (input_count : Z)
  : list (option ptr) :=
  map (fun i => Some (input_data i)) (seq 0 (Z.to_nat input_count)).

(** A cleared buffer. *)
Definition zeros (bytes : Z) : list Z := repeat 0 (Z.to_nat bytes).

(** The lane sums are allocated in the order of [3 * laneIndex +
    sumIndex]. [lanes_allocated .. j]: every allocation before position
    [j] succeeded and left a cleared buffer, the later sums and the rest
    of the encoder are as they were. *)
Definition lanes_allocated (malloc : allocator) (bytes : Z) (e0 e : Encoder)
  (j : Z) : Prop :=
  Window e = Window e0 /\ Sum e = Sum e0 /\ Product e = Product e0
  /\ forall l k, 0 <= l -> 0 <= k < kColumnSumCount ->
       (3 * l + k < j ->
          malloc (LaneSumBuffer l k) <> None
          /\ LaneSums e l k = Some (zeros bytes))
       /\ (j <= 3 * l + k -> LaneSums e l k = LaneSums e0 l k).

(** [lanes_failed]: the allocation of some lane sum failed; that buffer
    is null, the ones allocated before it are still there, cleared. *)
Definition lanes_failed (malloc : allocator) (bytes : Z) (e0 : Encoder)
  (r : FecalResult) (e : Encoder) : Prop :=
  r = Fecal_OutOfMemory
  /\ Window e = Window e0 /\ Sum e = Sum e0 /\ Product e = Product e0
  /\ exists l k,
       0 <= l < Zpos kColumnLaneCount /\ 0 <= k < kColumnSumCount
       /\ malloc (LaneSumBuffer l k) = None
       /\ LaneSums e l k = None
       /\ forall l' k', 0 <= l' -> 0 <= k' < kColumnSumCount ->
            3 * l' + k' < 3 * l + k ->
            malloc (LaneSumBuffer l' k') <> None
            /\ LaneSums e l' k' = Some (zeros bytes).

(** [columns_added .. c]: the lane sums hold the power sums of the
    columns below [c]; the rest of the encoder is as it was. *)
Definition columns_added (input_data : nat -> ptr) (bytes : Z) (e0 e : Encoder)
  (c : Z) : Prop :=
  Window e = Window e0 /\ Sum e = Sum e0 /\ Product e = Product e0
  /\ forall l k, 0 <= l < Zpos kColumnLaneCount -> 0 <= k < kColumnSumCount ->
       LaneSums e l k = Some (power_sum input_data bytes c l k).

(** The encoder once the window is set. *)
Definition with_window (e0 : Encoder) (w : EncoderAppDataWindow)
  (input_data : nat -> ptr) : Encoder :=
  set_Window e0 (set_OriginalData w (bound_originals input_data (InputCount w))).

(** How [Initialize] runs out of memory: at a lane sum; at [Sum], every
    lane sum being allocated; or at [Product], [Sum] being allocated too. *)
Definition init_OutOfMemory (malloc : allocator) (bytes : Z) (e1 e : Encoder)
  : Prop :=
  lanes_failed malloc bytes e1 Fecal_OutOfMemory e
  \/ (exists e2,
        lanes_allocated malloc bytes e1 e2 (3 * Zpos kColumnLaneCount)
        /\ malloc SumBuffer = None
        /\ e = set_Sum e2 None)
  \/ (exists e2 garbage,
        lanes_allocated malloc bytes e1 e2 (3 * Zpos kColumnLaneCount)
        /\ malloc SumBuffer = Some garbage
        /\ malloc ProductBuffer = None
        /\ e = set_Product (set_Sum e2 (Some (read garbage bytes))) None).

(** How [Initialize] succeeds: every allocation is granted, the workspace
    holds what the allocator handed out, the lane sums hold the power
    sums of their columns. *)
Definition init_Success (malloc : allocator) (input_data : nat -> ptr)
  (bytes input_count : Z) (e1 e : Encoder) : Prop :=
  (forall l k, 0 <= l < Zpos kColumnLaneCount -> 0 <= k < kColumnSumCount ->
     malloc (LaneSumBuffer l k) <> None)
  /\ exists garbageSum garbageProduct,
       malloc SumBuffer = Some garbageSum
       /\ malloc ProductBuffer = Some garbageProduct
       /\ Window e = Window e1
       /\ Sum e = Some (read garbageSum bytes)
       /\ Product e = Some (read garbageProduct bytes)
       /\ forall l k, 0 <= l < Zpos kColumnLaneCount -> 0 <= k < kColumnSumCount ->
            LaneSums e l k = Some (power_sum input_data bytes input_count l k).

(** ** Relations between inputs *)

(** Two arrays of column pointers show the same [bytes] bytes in each of
    the first [input_count] columns. *)
Definition same_columns (bytes input_count : Z) (d1 d2 : nat -> ptr) : Prop :=
  forall c, (c < Z.to_nat input_count)%nat ->
  read (d1 c) bytes = read (d2 c) bytes.

(** The same, for the columns of one lane only. *)
Definition same_lane_columns (bytes input_count laneIndex : Z)
  (d1 d2 : nat -> ptr) : Prop :=
  forall c, 0 <= c < input_count ->
  c mod Zpos kColumnLaneCount = laneIndex ->
  read (d1 (Z.to_nat c)) bytes = read (d2 (Z.to_nat c)) bytes.

(** The bytewise sum (XOR) of two blocks of columns. *)
Definition xor_columns (d1 d2 : nat -> ptr) : nat -> ptr :=
  fun c offset => Z.lxor (d1 c offset) (d2 c offset).

(** The multiplication table is additive in the data byte, as a field
    multiplication is. *)
Definition additive_table : Prop :=
  forall y a b,
  gf256_mul y (Z.lxor a b) = Z.lxor (gf256_mul y a) (gf256_mul y b).

(** The (lane, sum) index pairs a row selects, in the order of the dense
    phase. *)
Definition selection (row base : Z) : list (Z * Z) :=
  flat_map
    (fun l => map (pair l)
                (filter (fun k => Z.testbit (GetRowOpcode l row) (base + k)) sums))
    lanes.

End Fecal.

(** ** A concrete instance

    A small, fully computable set of primitives, used to run the encoder
    on concrete inputs: GF(256) multiplication by shift-and-add modulo
    the polynomial 0x14D, a 64-bit linear congruential generator, and
    affine code-construction functions. *)
Module Sample.

(** Multiplication by [x] in GF(256) modulo 0x14D. *)
Definition xtime (a : Z) : Z :=
  let a2 := Z.shiftl a 1 in
  if Z.testbit a2 8 then Z.lxor a2 333 else a2.

Fixpoint mul_bits (bits : nat) (a b : Z) : Z :=
  match bits with
  | O => 0
  | S k => Z.lxor (if Z.odd b then a else 0)
             (mul_bits k (xtime a) (Z.shiftr b 1))
  end.

Definition mul (a b : Z) : Z := mul_bits 8 (a mod 256) (b mod 256).

Definition seed (row count : Z) : Z :=
  (row * 2654435761 + count * 40503 + 12345) mod 2 ^ 64.

Definition next (state : Z) : Z * Z :=
  let state' := (state * 6364136223846793005 + 1442695040888963407) mod 2 ^ 64 in
  (Z.shiftr state' 32, state').

Definition column_value (column : Z) : Z := 3 + column mod 199.

Definition row_value (row : Z) : Z := 1 + row mod 255.

Definition row_opcode (laneIndex row : Z) : Z :=
  1 + (laneIndex * 29 + row * 13 + 7) mod 63.

#[local] Instance descriptor : CodeDescriptor := {|
  kColumnLaneCount := 8%positive;
  kPairAddRate := 16%positive;
  gf256_mul := mul;
  PCGRandom := Z;
  Seed := seed;
  Next := next;
  GetColumnValue := column_value;
  GetRowValue := row_value;
  GetRowOpcode := row_opcode;
  GetColumnValue_nonzero :=
    ltac:(intro column; unfold column_value;
          pose proof (Z.mod_pos_bound column 199); lia);
  GetRowValue_nonzero :=
    ltac:(intro row; unfold row_value;
          pose proof (Z.mod_pos_bound row 255); lia)
|}.

(** Caller memory holding the given bytes, followed by [beyond]. *)
Definition memory (bytes : list Z) (beyond : Z) : ptr :=
  fun offset => nth offset bytes beyond.

(** An allocator that always succeeds; fresh blocks hold [0xCD]. *)
Definition malloc_ok : allocator := fun _ => Some (fun _ => 205).

(** An allocator that refuses exactly one buffer. *)
Definition malloc_refusing (refused : BufferId) : allocator :=
  fun id =>
    match id, refused with
    | LaneSumBuffer l k, LaneSumBuffer l' k' =>
        if (l =? l') && (k =? k') then None else Some (fun _ => 205)
    | SumBuffer, SumBuffer => None
    | ProductBuffer, ProductBuffer => None
    | _, _ => Some (fun _ => 205)
    end.

(** Three columns of a five-byte block: two symbols of two bytes and a
    final column of one byte; [beyond] is the byte that follows the final
    column in the caller's memory. *)
Definition columns (beyond : Z) : nat -> ptr :=
  fun column =>
    match column with
    | O => memory [1; 2] 170
    | S O => memory [3; 4] 187
    | _ => memory [5] beyond
    end.

(** The encoder [Initialize] leaves for these columns. *)
Definition initialized (malloc : allocator) (beyond : Z) (e0 : Encoder)
  : FecalResult * Encoder :=
  match Initialize malloc 3 (columns beyond) 5 e0 with
  | Some outcome => outcome
  | None => (Fecal_InvalidInput, e0)
  end.

Definition encoder : Encoder := snd (initialized malloc_ok 204 new_Encoder).

Definition blank : FecalSymbol := {| Data := CallerData; Bytes := 0; Index := 0 |}.

(** The window of as many one-byte columns as a 32-bit count allows. *)
Definition widest : EncoderAppDataWindow :=
  snd (SetParameters (Window new_Encoder) 4294967295 4294967295).

(** A second block of three columns; within [SymbolBytes = 2] bytes the
    final column shows [[6; 77]]. *)
Definition other_columns : nat -> ptr :=
  fun column =>
    match column with
    | O => memory [16; 32] 1
    | S O => memory [48; 64] 2
    | _ => memory [6] 77
    end.

(** The columns of [columns 204] once more, lying elsewhere in memory:
    the same two bytes each, different bytes after them. *)
Definition moved_columns : nat -> ptr :=
  fun column =>
    match column with
    | O => memory [1; 2] 99
    | S O => memory [3; 4] 98
    | _ => memory [5; 204] 97
    end.

(** An allocator that always succeeds; fresh blocks hold [0x11]. *)
Definition malloc_other : allocator := fun _ => Some (fun _ => 17).

(** The outcome of [Initialize] for a block of three columns. *)
Definition initialized_from (malloc : allocator) (input_data : nat -> ptr)
  (e0 : Encoder) : FecalResult * Encoder :=
  match Initialize malloc 3 input_data 5 e0 with
  | Some outcome => outcome
  | None => (Fecal_InvalidInput, e0)
  end.

End Sample.

(** * Properties *)

(** ** Buffers *)

Lemma bind_Some {A B : Type} (c : option A) (k : A -> option B) (b : B) :
  bind c k = Some b <-> exists a, c = Some a /\ k a = Some b.
Proof.
  destruct c as [a|]; simpl; split.
  - intro H. exists a. auto.
  - intros [a' [Ha Hk]]. inversion Ha. subst. exact Hk.
  - discriminate.
  - intros [a' [Ha _]]. discriminate.
Qed.

Lemma length_read (p : ptr) (bytes : Z) :
  length (read p bytes) = Z.to_nat bytes.
Proof. unfold read. rewrite length_map, length_seq. reflexivity. Qed.

Lemma firstn_read (p : ptr) (bytes : Z) :
  firstn (Z.to_nat bytes) (read p bytes) = read p bytes.
Proof. apply firstn_all2. rewrite length_read. lia. Qed.

Lemma fits_true (bytes : Z) (buf : list Z) :
  fits bytes buf = true <-> 0 <= bytes <= Z.of_nat (length buf).
Proof. unfold fits. rewrite andb_true_iff, !Z.leb_le. tauto. Qed.

Lemma fits_read (p : ptr) (bytes : Z) :
  0 <= bytes -> fits bytes (read p bytes) = true.
Proof. intro H. apply fits_true. rewrite length_read. lia. Qed.

(** Discharges the bounds checks of the memory primitives. *)
Ltac bounds_hold :=
  repeat match goal with
         | |- context [fits ?n ?buf] =>
             replace (fits n buf) with true
               by (symmetry; apply fits_true; rewrite ?length_read; lia)
         end;
  cbn [andb].

Lemma length_xor_mem (x y : list Z) : length (xor_mem x y) = length x.
Proof.
  revert y. induction x as [|a x IH]; intros [|b y]; simpl; auto.
Qed.

Lemma xor_mem_nil (x : list Z) : xor_mem x [] = x.
Proof. destruct x; reflexivity. Qed.

(** Additions into a buffer commute, whatever the lengths of the sources. *)
Lemma xor_mem_swap (x y z : list Z) :
  xor_mem (xor_mem x y) z = xor_mem (xor_mem x z) y.
Proof.
  revert y z. induction x as [|a x IH]; intros [|b y] [|c z]; simpl; auto.
  f_equal; [| apply IH].
  rewrite !Z.lxor_assoc. f_equal. apply Z.lxor_comm.
Qed.

(** A source padded with zeros adds what the source alone adds. *)
Lemma xor_mem_zero_padded (x y : list Z) (k : nat) :
  xor_mem x (y ++ repeat 0 k) = xor_mem x y.
Proof.
  revert y k. induction x as [|a x IH]; intros y k.
  - destruct y; destruct k; reflexivity.
  - destruct y as [|b y]; simpl.
    + destruct k; simpl; auto. rewrite Z.lxor_0_r. f_equal.
      rewrite <- (xor_mem_nil x) at 2. apply (IH [] k).
    + f_equal. apply IH.
Qed.

Lemma xor_all_xor_mem (base t : list Z) (terms : list (list Z)) :
  xor_all (xor_mem base t) terms = xor_mem (xor_all base terms) t.
Proof.
  unfold xor_all. revert base. induction terms as [|u terms IH]; intro base.
  - reflexivity.
  - simpl. rewrite xor_mem_swap. apply IH.
Qed.

Lemma xor_all_app (base : list Z) (ts us : list (list Z)) :
  xor_all base (ts ++ us) = xor_all (xor_all base ts) us.
Proof. unfold xor_all. apply fold_left_app. Qed.

Lemma xor_all_snoc (base t : list Z) (terms : list (list Z)) :
  xor_all base (terms ++ [t]) = xor_mem (xor_all base terms) t.
Proof. rewrite xor_all_app. reflexivity. Qed.

Lemma xor_all_cons (base t : list Z) (terms : list (list Z)) :
  xor_all base (t :: terms) = xor_all (xor_mem base t) terms.
Proof. reflexivity. Qed.

Lemma length_xor_all (base : list Z) (terms : list (list Z)) :
  length (xor_all base terms) = length base.
Proof.
  unfold xor_all. revert base. induction terms as [|t terms IH]; intro base.
  - reflexivity.
  - simpl. rewrite IH. apply length_xor_mem.
Qed.

(** Only the bytes a source covers can change. *)
Lemma nth_xor_mem_beyond (x y : list Z) (i : nat) (d : Z) :
  (length y <= i)%nat -> nth i (xor_mem x y) d = nth i x d.
Proof.
  revert y i. induction x as [|a x IH]; intros [|b y] i H; simpl in *; auto.
  destruct i as [|i]; [lia|]. apply IH. lia.
Qed.

Section Proofs.

Context {CD : CodeDescriptor}.

Lemma muladd_bytes_xor (vz : list Z) (y : Z) (vx : list Z) :
  muladd_bytes vz y vx = xor_mem vz (map (gf256_mul y) vx).
Proof.
  revert vx. induction vz as [|a vz IH]; intros [|b vx]; simpl; auto.
  f_equal. apply IH.
Qed.

Lemma gf256_add_mem_Some (vx vy : list Z) (bytes : Z) :
  0 <= bytes <= Z.of_nat (length vx) ->
  bytes <= Z.of_nat (length vy) ->
  gf256_add_mem vx vy bytes = Some (xor_mem vx (firstn (Z.to_nat bytes) vy)).
Proof.
  intros Hx Hy. unfold gf256_add_mem. bounds_hold. reflexivity.
Qed.

Lemma gf256_add2_mem_Some (vz vx vy : list Z) (bytes : Z) :
  0 <= bytes <= Z.of_nat (length vz) ->
  bytes <= Z.of_nat (length vx) ->
  bytes <= Z.of_nat (length vy) ->
  gf256_add2_mem vz vx vy bytes
  = Some (xor_mem (xor_mem vz (firstn (Z.to_nat bytes) vx))
            (firstn (Z.to_nat bytes) vy)).
Proof.
  intros Hz Hx Hy. unfold gf256_add2_mem. bounds_hold. reflexivity.
Qed.

Lemma gf256_muladd_mem_Some (vz : list Z) (y : Z) (vx : list Z) (bytes : Z) :
  0 <= bytes <= Z.of_nat (length vz) ->
  bytes <= Z.of_nat (length vx) ->
  gf256_muladd_mem vz y vx bytes
  = Some (muladd_bytes vz y (firstn (Z.to_nat bytes) vx)).
Proof.
  intros Hz Hx. unfold gf256_muladd_mem. bounds_hold. reflexivity.
Qed.

(** ** Loops *)

Lemma iterate_invariant {S : Type} (P : Z -> S -> Prop)
  (body : Z -> S -> option S) (fuel : nat) :
  forall (lo : Z) (s : S),
  P lo s ->
  (forall i t, lo <= i < lo + Z.of_nat fuel -> P i t ->
     exists t', body i t = Some t' /\ P (i + 1) t') ->
  exists s', iterate body lo fuel s = Some s' /\ P (lo + Z.of_nat fuel) s'.
Proof.
  induction fuel as [|fuel IH]; intros lo s Hs Hbody.
  - exists s. simpl. rewrite Z.add_0_r. auto.
  - destruct (Hbody lo s) as [t [Ht HP]]; [lia | exact Hs |].
    destruct (IH (lo + 1) t HP) as [s' [Hrun Hs']].
    + intros i u Hi Hu. apply Hbody; [lia | exact Hu].
    + exists s'. cbn [iterate]. rewrite Ht. cbn [bind]. split; [exact Hrun|].
      replace (lo + Z.of_nat (Datatypes.S fuel)) with (lo + 1 + Z.of_nat fuel) by lia.
      exact Hs'.
Qed.

Lemma for_range_invariant {S : Type} (P : Z -> S -> Prop)
  (body : Z -> S -> option S) (lo hi : Z) (s : S) :
  lo <= hi ->
  P lo s ->
  (forall i t, lo <= i < hi -> P i t ->
     exists t', body i t = Some t' /\ P (i + 1) t') ->
  exists s', for_range lo hi body s = Some s' /\ P hi s'.
Proof.
  intros Hle Hs Hbody. unfold for_range.
  destruct (@iterate_invariant S P body (Z.to_nat (hi - lo)) lo s Hs)
    as [s' [Hrun Hs']].
  - intros i t Hi. apply Hbody. lia.
  - exists s'. split; [exact Hrun|].
    replace hi with (lo + Z.of_nat (Z.to_nat (hi - lo))) at 1 by lia.
    exact Hs'.
Qed.

(** ** The Ready state, unfolded *)

Lemma has_size_true (bytes : Z) (b : AlignedDataBuffer) :
  has_size bytes b = true <->
  exists data, b = Some data /\ Z.of_nat (length data) = bytes.
Proof.
  destruct b as [data|]; simpl; split.
  - intro H. apply Z.eqb_eq in H. eauto.
  - intros [d [Hd Hl]]. inversion Hd. subst. apply Z.eqb_refl.
  - discriminate.
  - intros [d [Hd _]]. discriminate.
Qed.

Lemma In_lanes (l : Z) : In l lanes <-> 0 <= l < Zpos kColumnLaneCount.
Proof.
  unfold lanes. rewrite in_map_iff. split.
  - intros [i [Hi Hin]]. apply in_seq in Hin. lia.
  - intro H. exists (Z.to_nat l). split; [lia|]. apply in_seq. lia.
Qed.

Lemma In_sums (k : Z) : In k sums <-> 0 <= k < kColumnSumCount.
Proof.
  unfold sums, kColumnSumCount. simpl. lia.
Qed.

Lemma forallb_is_set (v : list (option ptr)) (i : nat) :
  forallb is_set v = true -> (i < length v)%nat ->
  exists original, nth_error v i = Some (Some original).
Proof.
  revert i. induction v as [|slot v IH]; intros i Hall Hi; simpl in *.
  - lia.
  - apply andb_true_iff in Hall. destruct Hall as [Hslot Hall].
    destruct i as [|i]; simpl.
    + destruct slot as [p|]; [eauto | discriminate].
    + apply IH; [exact Hall | lia].
Qed.

Lemma Ready_facts (e : Encoder) : Ready e = true -> ReadyFacts e.
Proof.
  unfold Ready. rewrite !andb_true_iff.
  intros [[[[[[[[[H1 H2] H3] H4] H5] H6] H7] H8] H9] H10].
  apply Z.leb_le in H1, H4. apply Z.ltb_lt in H2, H3, H5. apply Z.eqb_eq in H6.
  constructor; try lia.
  - intros element He. unfold original_at.
    destruct (@forallb_is_set (OriginalData (Window e)) (Z.to_nat element) H7)
      as [p Hp]; [lia|].
    exists p. rewrite Hp. reflexivity.
  - intros l k Hl Hk. apply has_size_true.
    rewrite forallb_forall in H8. specialize (H8 l (proj2 (In_lanes l) Hl)).
    rewrite forallb_forall in H8. apply H8. apply In_sums. exact Hk.
  - apply has_size_true. exact H9.
  - apply has_size_true. exact H10.
Qed.

(** ** The first pair: copying a column *)

Lemma length_column_symbol (e : Encoder) (element : Z) :
  ReadyFacts e -> 0 <= element < InputCount (Window e) ->
  Z.of_nat (length (column_symbol (Window e) element)) = SymbolBytes (Window e).
Proof.
  intros F He. unfold column_symbol.
  destruct (ready_originals F He) as [p Hp]. rewrite Hp.
  pose proof (ready_final F).
  destruct (IsFinalColumn (Window e) element).
  - rewrite length_app, length_read, repeat_length. lia.
  - rewrite length_read. lia.
Qed.

Lemma copy_original_spec (e : Encoder) (element : Z) (original : ptr)
  (output : list Z) :
  ReadyFacts e ->
  original_at (Window e) element = Some original ->
  Z.of_nat (length output) = SymbolBytes (Window e) ->
  copy_original (Window e) element original output
  = Some (column_symbol (Window e) element).
Proof.
  intros F Hp Hlen. unfold copy_original, column_symbol. rewrite Hp.
  pose proof (ready_final F) as Hf. pose proof (ready_symbol F) as Hs.
  set (w := Window e) in *.
  destruct (IsFinalColumn w element).
  - unfold memcpy. bounds_hold. cbn [bind].
    rewrite firstn_read.
    unfold memset, wrap32. rewrite Z.mod_small by lia.
    rewrite length_app, length_read, length_skipn.
    replace ((0 <=? FinalBytes w) && (0 <=? SymbolBytes w - FinalBytes w)
             && (FinalBytes w + (SymbolBytes w - FinalBytes w)
                 <=? Z.of_nat (Z.to_nat (FinalBytes w)
                               + (length output - Z.to_nat (FinalBytes w)))))
      with true
      by (symmetry; rewrite !andb_true_iff, !Z.leb_le; lia).
    f_equal.
    rewrite firstn_app, length_read, Nat.sub_diag, firstn_O, app_nil_r.
    rewrite firstn_read. f_equal.
    rewrite skipn_all2; [apply app_nil_r|].
    rewrite length_app, length_read, length_skipn. lia.
  - unfold memcpy. bounds_hold.
    rewrite firstn_read, skipn_all2 by lia. rewrite app_nil_r. reflexivity.
Qed.

(** The final column, read by the sparse phase, is zero from
    [FinalBytes] on, and adding it changes no byte from there on. *)
Lemma final_column_zero_padded (e : Encoder) (i : nat) :
  ReadyFacts e ->
  FinalBytes (Window e) <= Z.of_nat i ->
  nth i (column_symbol (Window e) (InputCount (Window e) - 1)) 0 = 0.
Proof.
  intros F Hi. pose proof (ready_count F) as Hc.
  unfold column_symbol.
  assert (Hlast : 0 <= InputCount (Window e) - 1 < InputCount (Window e)) by lia.
  destruct (ready_originals F Hlast) as [p Hp].
  rewrite Hp. unfold IsFinalColumn. rewrite Z.eqb_refl.
  rewrite app_nth2 by (rewrite length_read; lia).
  apply nth_repeat.
Qed.

Lemma final_column_adds_its_bytes_only (e : Encoder) (output : list Z) (i : nat) :
  ReadyFacts e ->
  FinalBytes (Window e) <= Z.of_nat i ->
  nth i (xor_mem output (column_symbol (Window e) (InputCount (Window e) - 1))) 0
  = nth i output 0.
Proof.
  intros F Hi. pose proof (ready_count F) as Hc.
  unfold column_symbol.
  assert (Hlast : 0 <= InputCount (Window e) - 1 < InputCount (Window e)) by lia.
  destruct (ready_originals F Hlast) as [p Hp].
  rewrite Hp. unfold IsFinalColumn. rewrite Z.eqb_refl.
  rewrite xor_mem_zero_padded.
  apply nth_xor_mem_beyond. rewrite length_read. lia.
Qed.

(** ** The summer *)

Lemma summer_ok_Initialize (dest : list Z) (bytes : Z) :
  Z.of_nat (length dest) = bytes ->
  summer_ok bytes (XORSummer_Initialize dest bytes)
  /\ flushed (XORSummer_Initialize dest bytes) = dest.
Proof. intro H. unfold summer_ok, flushed. simpl. auto. Qed.

Lemma length_flushed (bytes : Z) (s : XORSummer) :
  summer_ok bytes s -> Z.of_nat (length (flushed s)) = bytes.
Proof.
  intros [_ [Hd _]]. unfold flushed.
  destruct (Waiting s); [rewrite length_xor_mem|]; exact Hd.
Qed.

(** An addition through the summer adds the source to what the
    destination will hold, whether it is carried out now or deferred. *)
Lemma XORSummer_Add_spec (bytes : Z) (src : list Z) (s : XORSummer) :
  summer_ok bytes s ->
  bytes <= Z.of_nat (length src) ->
  exists s', XORSummer_Add src s = Some s'
             /\ summer_ok bytes s'
             /\ flushed s' = xor_mem (flushed s) (firstn (Z.to_nat bytes) src).
Proof.
  intros [Hb [Hd Hw]] Hsrc. unfold XORSummer_Add, flushed.
  destruct (Waiting s) as [w|].
  - rewrite gf256_add2_mem_Some by lia. cbn [bind].
    eexists. split; [reflexivity|]. split.
    + unfold summer_ok. cbn. rewrite !length_xor_mem. auto.
    + cbn. rewrite Hb. apply xor_mem_swap.
  - eexists. split; [reflexivity|]. split.
    + unfold summer_ok. cbn. auto.
    + cbn. rewrite Hb. reflexivity.
Qed.

(** A direct addition into the destination commutes with the deferred
    one. *)
Lemma with_dest_spec (bytes : Z) (src : list Z) (s : XORSummer) :
  summer_ok bytes s ->
  summer_ok bytes (with_dest s (xor_mem (DestBuffer s) src))
  /\ flushed (with_dest s (xor_mem (DestBuffer s) src))
     = xor_mem (flushed s) src.
Proof.
  intros [Hb [Hd Hw]]. unfold summer_ok, flushed, with_dest. cbn.
  rewrite length_xor_mem. split; [auto|].
  destruct (Waiting s); [apply xor_mem_swap | reflexivity].
Qed.

Lemma XORSummer_Finalize_spec (bytes : Z) (s : XORSummer) :
  0 <= bytes ->
  summer_ok bytes s ->
  exists s', XORSummer_Finalize s = Some s'
             /\ DestBuffer s' = flushed s
             /\ Waiting s' = None.
Proof.
  intros Hpos [Hb [Hd Hw]]. unfold XORSummer_Finalize, flushed.
  destruct (Waiting s) as [w|] eqn:Hwait.
  - rewrite gf256_add_mem_Some by lia. cbn [bind].
    eexists. split; [reflexivity|]. cbn. auto.
  - exists s. auto.
Qed.

(** ** The later pairs: adding a column *)

Lemma add_original_spec (e : Encoder) (element : Z) (original : ptr)
  (s : XORSummer) :
  ReadyFacts e ->
  original_at (Window e) element = Some original ->
  summer_ok (SymbolBytes (Window e)) s ->
  exists s', add_original (Window e) element original s = Some s'
             /\ summer_ok (SymbolBytes (Window e)) s'
             /\ flushed s' = xor_mem (flushed s) (column_symbol (Window e) element).
Proof.
  intros F Hp Hs. unfold add_original, column_symbol. rewrite Hp.
  pose proof (ready_final F) as Hf.
  destruct (IsFinalColumn (Window e) element).
  - destruct Hs as [Hb [Hd Hw]].
    rewrite gf256_add_mem_Some by (rewrite ?length_read; lia).
    cbn [bind]. rewrite firstn_read.
    eexists. split; [reflexivity|].
    rewrite xor_mem_zero_padded.
    apply with_dest_spec. unfold summer_ok. auto.
  - destruct (@XORSummer_Add_spec (SymbolBytes (Window e))
                (read original (SummerBytes s)) s Hs) as [s' [Ha [Hok Hfl]]].
    + destruct Hs as [Hb _]. rewrite Hb, length_read. lia.
    + exists s'. split; [exact Ha|]. split; [exact Hok|].
      rewrite Hfl. destruct Hs as [Hb _]. rewrite Hb, firstn_read. reflexivity.
Qed.

(** ** The sparse phase *)

Lemma next_element_spec (count : Z) (prng : PCGRandom) :
  count <> 0 ->
  next_element count prng = Some (fst (Next prng) mod count, snd (Next prng)).
Proof.
  intro H. unfold next_element.
  destruct (Z.eqb_spec count 0) as [E|_]; [contradiction|].
  destruct (Next prng). reflexivity.
Qed.

Lemma draws_step (count : Z) (prng : PCGRandom) (k : nat) :
  draws count prng (Datatypes.S k)
  = (fst (Next prng) mod count, fst (Next (snd (Next prng))) mod count)
    :: draws count (snd (Next (snd (Next prng)))) k.
Proof.
  cbn [draws]. destruct (Next prng) as [r1 prng1]. cbn [fst snd].
  destruct (Next prng1) as [rX prng2]. reflexivity.
Qed.

Lemma length_draws (count : Z) (prng : PCGRandom) (k : nat) :
  length (draws count prng k) = k.
Proof.
  revert prng. induction k as [|k IH]; intro prng.
  - reflexivity.
  - rewrite draws_step. simpl. f_equal. apply IH.
Qed.

(** Every drawn index is a column index. *)
Lemma draws_in_range (count : Z) (prng : PCGRandom) (k : nat) :
  0 < count ->
  Forall (fun d => 0 <= fst d < count /\ 0 <= snd d < count)
    (draws count prng k).
Proof.
  intro Hc. revert prng. induction k as [|k IH]; intro prng.
  - constructor.
  - rewrite draws_step. constructor; [|apply IH].
    cbn [fst snd]. split; apply Z.mod_pos_bound; exact Hc.
Qed.

Lemma sparse_loop_spec (e : Encoder) (F : ReadyFacts e) (fuel : nat) :
  forall (i : Z) (prng : PCGRandom) (sum prod : XORSummer),
  summer_ok (SymbolBytes (Window e)) sum ->
  summer_ok (SymbolBytes (Window e)) prod ->
  exists prng' sum' prod',
    iterate (sparse_step (Window e)) i fuel (prng, sum, prod)
    = Some (prng', sum', prod')
    /\ summer_ok (SymbolBytes (Window e)) sum'
    /\ summer_ok (SymbolBytes (Window e)) prod'
    /\ flushed sum'
       = xor_all (flushed sum)
           (map (column_symbol (Window e))
              (map fst (draws (InputCount (Window e)) prng fuel)))
    /\ flushed prod'
       = xor_all (flushed prod)
           (map (column_symbol (Window e))
              (map snd (draws (InputCount (Window e)) prng fuel))).
Proof.
  pose proof (ready_count F) as Hc.
  induction fuel as [|fuel IH]; intros i prng sum prod Hsum Hprod.
  - exists prng, sum, prod. simpl. auto.
  - rewrite draws_step. cbn [iterate sparse_step map fst snd].
    rewrite next_element_spec by lia. cbn [bind].
    set (element1 := fst (Next prng) mod InputCount (Window e)).
    set (prng1 := snd (Next prng)).
    assert (H1 : 0 <= element1 < InputCount (Window e))
      by (apply Z.mod_pos_bound; lia).
    destruct (ready_originals F H1) as [original1 Ho1]. rewrite Ho1. cbn [bind].
    rewrite next_element_spec by lia. cbn [bind].
    set (elementRX := fst (Next prng1) mod InputCount (Window e)).
    set (prng2 := snd (Next prng1)).
    assert (HX : 0 <= elementRX < InputCount (Window e))
      by (apply Z.mod_pos_bound; lia).
    destruct (ready_originals F HX) as [originalRX HoX]. rewrite HoX. cbn [bind].
    destruct (@add_original_spec e element1 original1 sum F Ho1 Hsum) as [sum1 [Ha1 [Hok1 Hf1]]].
    destruct (@add_original_spec e elementRX originalRX prod F HoX Hprod) as [prod1 [HaX [HokX HfX]]].
    rewrite Ha1, HaX. cbn [bind].
    destruct (IH (i + 1) prng2 sum1 prod1 Hok1 HokX)
      as [prng' [sum' [prod' [Hrun [Hs [Hp [Hfs Hfp]]]]]]].
    exists prng', sum', prod'. split; [exact Hrun|].
    split; [exact Hs|]. split; [exact Hp|].
    rewrite !xor_all_cons, <- Hf1, <- HfX. auto.
Qed.

Lemma sparse_phase_spec (e : Encoder) (row : Z) (outputSum outputProduct : list Z) :
  ReadyFacts e ->
  Z.of_nat (length outputSum) = SymbolBytes (Window e) ->
  Z.of_nat (length outputProduct) = SymbolBytes (Window e) ->
  exists sum prod,
    sparse_phase row (Window e) outputSum outputProduct = Some (sum, prod)
    /\ summer_ok (SymbolBytes (Window e)) sum
    /\ summer_ok (SymbolBytes (Window e)) prod
    /\ flushed sum
       = sparse_sum (Window e) (map fst (row_elements (Window e) row))
    /\ flushed prod
       = sparse_sum (Window e) (map snd (row_elements (Window e) row)).
Proof.
  intros F HlS HlP. pose proof (ready_count F) as Hc.
  unfold sparse_phase, row_elements, sparse_iterations.
  rewrite draws_step. cbn [map fst snd sparse_sum].
  set (prng := Seed row (InputCount (Window e))).
  rewrite next_element_spec by lia. cbn [bind].
  set (element1 := fst (Next prng) mod InputCount (Window e)).
  set (prng1 := snd (Next prng)).
  assert (H1 : 0 <= element1 < InputCount (Window e))
    by (apply Z.mod_pos_bound; lia).
  destruct (ready_originals F H1) as [original1 Ho1]. rewrite Ho1. cbn [bind].
  rewrite next_element_spec by lia. cbn [bind].
  set (elementRX := fst (Next prng1) mod InputCount (Window e)).
  set (prng2 := snd (Next prng1)).
  assert (HX : 0 <= elementRX < InputCount (Window e))
    by (apply Z.mod_pos_bound; lia).
  destruct (ready_originals F HX) as [originalRX HoX]. rewrite HoX. cbn [bind].
  rewrite (@copy_original_spec e element1 original1 outputSum F Ho1 HlS),
    (@copy_original_spec e elementRX originalRX outputProduct F HoX HlP).
  cbn [bind].
  destruct (@summer_ok_Initialize _ _ (@length_column_symbol e element1 F H1)) as [Hs0 Hfs0].
  destruct (@summer_ok_Initialize _ _ (@length_column_symbol e elementRX F HX)) as [Hp0 Hfp0].
  destruct (@sparse_loop_spec e F (Z.to_nat (pairCount (Window e) - 1)) 1 prng2
              _ _ Hs0 Hp0)
    as [prng' [sum' [prod' [Hrun [Hs [Hp [Hfs Hfp]]]]]]].
  unfold for_range. rewrite Hrun. cbn [bind].
  exists sum', prod'. split; [reflexivity|].
  split; [exact Hs|]. split; [exact Hp|].
  rewrite Hfs, Hfp, Hfs0, Hfp0. auto.
Qed.

(** ** The dense phase *)

Lemma land_pow2_testbit (a m : Z) :
  0 <= m -> (Z.land a (2 ^ m) =? 0) = negb (Z.testbit a m).
Proof.
  intro Hm.
  assert (H : Z.land a (2 ^ m) = if Z.testbit a m then 2 ^ m else 0).
  { apply Z.bits_inj'. intros n Hn.
    rewrite Z.land_spec, Z.pow2_bits_eqb by exact Hm.
    destruct (Z.eqb_spec m n) as [E|E].
    - subst n. rewrite andb_true_r.
      destruct (Z.testbit a m) eqn:Hb.
      + rewrite Z.pow2_bits_true; auto.
      + rewrite Z.bits_0. reflexivity.
    - rewrite andb_false_r.
      destruct (Z.testbit a m).
      + rewrite Z.pow2_bits_false; auto.
      + rewrite Z.bits_0. reflexivity. }
  rewrite H. destruct (Z.testbit a m); simpl.
  - apply Z.eqb_neq. pose proof (Z.pow_pos_nonneg 2 m). lia.
  - reflexivity.
Qed.

Lemma shift_mask (m : Z) :
  0 <= m < 31 -> wrap32 (Z.shiftl (2 ^ m) 1) = 2 ^ (m + 1).
Proof.
  intro Hm. unfold wrap32.
  rewrite Z.shiftl_mul_pow2 by lia. rewrite <- Z.pow_add_r by lia.
  apply Z.mod_small. split.
  - apply Z.pow_nonneg. lia.
  - apply Z.pow_lt_mono_r; lia.
Qed.

Lemma lane_data_ok (e : Encoder) (l k : Z) :
  ReadyFacts e ->
  0 <= l < Zpos kColumnLaneCount -> 0 <= k < kColumnSumCount ->
  LaneSums e l k = Some (lane_data e l k)
  /\ Z.of_nat (length (lane_data e l k)) = SymbolBytes (Window e).
Proof.
  intros F Hl Hk. unfold lane_data.
  destruct (ready_lanes F Hl Hk) as [data [Hd Hlen]]. rewrite Hd. auto.
Qed.

Lemma masked_add_spec (e : Encoder) (l opcode k m : Z) (s : XORSummer) :
  ReadyFacts e ->
  0 <= l < Zpos kColumnLaneCount -> 0 <= k < kColumnSumCount ->
  0 <= m < 31 ->
  summer_ok (SymbolBytes (Window e)) s ->
  exists s',
    masked_add e l opcode k (2 ^ m, s) = Some (2 ^ (m + 1), s')
    /\ summer_ok (SymbolBytes (Window e)) s'
    /\ flushed s'
       = xor_all (flushed s)
           (if Z.testbit opcode m then [lane_data e l k] else []).
Proof.
  intros F Hl Hk Hm Hs. unfold masked_add.
  rewrite land_pow2_testbit by lia. rewrite shift_mask by exact Hm.
  destruct (Z.testbit opcode m); cbn [negb].
  - destruct (@lane_data_ok e l k F Hl Hk) as [Hd Hlen]. rewrite Hd. cbn [bind].
    destruct (@XORSummer_Add_spec (SymbolBytes (Window e)) (lane_data e l k) s Hs)
      as [s' [Ha [Hok Hfl]]]; [lia|].
    rewrite Ha. cbn [bind]. exists s'. split; [reflexivity|].
    split; [exact Hok|]. rewrite Hfl. cbn.
    rewrite firstn_all2 by lia. reflexivity.
  - cbn [bind]. exists s. auto.
Qed.

(** One pass over the sums of a lane, starting at opcode bit [m]. *)
Lemma lane_sums_spec (e : Encoder) (l opcode m : Z) (s : XORSummer) :
  ReadyFacts e ->
  0 <= l < Zpos kColumnLaneCount ->
  0 <= m <= 3 ->
  summer_ok (SymbolBytes (Window e)) s ->
  exists s',
    for_range 0 kColumnSumCount (masked_add e l opcode) (2 ^ m, s)
    = Some (2 ^ (m + 3), s')
    /\ summer_ok (SymbolBytes (Window e)) s'
    /\ flushed s'
       = xor_all (flushed s)
           (map (lane_data e l)
              (filter (fun k => Z.testbit opcode (m + k)) sums)).
Proof.
  intros F Hl Hm Hs.
  destruct (@masked_add_spec e l opcode 0 m s F Hl) as [s1 [E1 [Ok1 F1]]];
    [unfold kColumnSumCount; lia | lia | exact Hs |].
  destruct (@masked_add_spec e l opcode 1 (m + 1) s1 F Hl) as [s2 [E2 [Ok2 F2]]];
    [unfold kColumnSumCount; lia | lia | exact Ok1 |].
  destruct (@masked_add_spec e l opcode 2 (m + 1 + 1) s2 F Hl) as [s3 [E3 [Ok3 F3]]];
    [unfold kColumnSumCount; lia | lia | exact Ok2 |].
  exists s3. split; [|split; [exact Ok3|]].
  - unfold for_range, kColumnSumCount.
    change (Z.to_nat (3 - 0)) with 3%nat. cbn [iterate].
    rewrite E1. cbn [bind]. change (0 + 1) with 1. rewrite E2. cbn [bind].
    change (1 + 1) with 2. rewrite E3. cbn [bind].
    replace (m + 1 + 1 + 1) with (m + 3) by lia. reflexivity.
  - rewrite F3, F2, F1. unfold sums. cbn [filter].
    replace (m + 0) with m by lia. replace (m + 2) with (m + 1 + 1) by lia.
    destruct (Z.testbit opcode m), (Z.testbit opcode (m + 1)),
      (Z.testbit opcode (m + 1 + 1)); reflexivity.
Qed.

Lemma lane_step_spec (e : Encoder) (row l : Z) (sum prod : XORSummer) :
  ReadyFacts e ->
  0 <= l < Zpos kColumnLaneCount ->
  summer_ok (SymbolBytes (Window e)) sum ->
  summer_ok (SymbolBytes (Window e)) prod ->
  exists sum' prod',
    lane_step e row l (sum, prod) = Some (sum', prod')
    /\ summer_ok (SymbolBytes (Window e)) sum'
    /\ summer_ok (SymbolBytes (Window e)) prod'
    /\ flushed sum'
       = xor_all (flushed sum)
           (map (lane_data e l)
              (filter (fun k => Z.testbit (GetRowOpcode l row) (0 + k)) sums))
    /\ flushed prod'
       = xor_all (flushed prod)
           (map (lane_data e l)
              (filter (fun k => Z.testbit (GetRowOpcode l row)
                                  (kColumnSumCount + k)) sums)).
Proof.
  intros F Hl Hs Hp. unfold lane_step.
  destruct (@lane_sums_spec e l (GetRowOpcode l row) 0 sum F Hl)
    as [sum' [E1 [Ok1 F1]]]; [lia | exact Hs |].
  destruct (@lane_sums_spec e l (GetRowOpcode l row) 3 prod F Hl)
    as [prod' [E2 [Ok2 F2]]]; [lia | exact Hp |].
  change (2 ^ 0) with 1 in E1. rewrite E1. cbn [bind].
  change (2 ^ (0 + 3)) with (2 ^ 3). rewrite E2. cbn [bind].
  exists sum', prod'. auto.
Qed.

Lemma lanes_below_succ (i : Z) :
  0 <= i -> lanes_below (i + 1) = lanes_below i ++ [i].
Proof.
  intro Hi. unfold lanes_below.
  replace (Z.to_nat (i + 1)) with (Datatypes.S (Z.to_nat i)) by lia.
  rewrite seq_S, map_app. simpl. rewrite Z2Nat.id by exact Hi. reflexivity.
Qed.

Lemma dense_phase_spec (e : Encoder) (row : Z) (sum prod : XORSummer) :
  ReadyFacts e ->
  summer_ok (SymbolBytes (Window e)) sum ->
  summer_ok (SymbolBytes (Window e)) prod ->
  exists sum' prod',
    dense_phase row e (sum, prod) = Some (sum', prod')
    /\ summer_ok (SymbolBytes (Window e)) sum'
    /\ summer_ok (SymbolBytes (Window e)) prod'
    /\ flushed sum' = xor_all (flushed sum) (selected e row 0)
    /\ flushed prod' = xor_all (flushed prod) (selected e row kColumnSumCount).
Proof.
  intros F Hs Hp. unfold dense_phase.
  destruct (@for_range_invariant (XORSummer * XORSummer)
    (fun i st =>
       summer_ok (SymbolBytes (Window e)) (fst st)
       /\ summer_ok (SymbolBytes (Window e)) (snd st)
       /\ flushed (fst st) = xor_all (flushed sum) (selected_below e row 0 i)
       /\ flushed (snd st)
          = xor_all (flushed prod) (selected_below e row kColumnSumCount i))
    (lane_step e row) 0 (Zpos kColumnLaneCount) (sum, prod))
    as [[sum' prod'] [Hrun [Ok1 [Ok2 [F1 F2]]]]].
  - lia.
  - cbn. auto.
  - intros i [s1 p1] Hi [Ok1 [Ok2 [F1 F2]]]. cbn [fst snd] in *.
    destruct (@lane_step_spec e row i s1 p1 F Hi Ok1 Ok2)
      as [s2 [p2 [E [Ok1' [Ok2' [F1' F2']]]]]].
    exists (s2, p2). split; [exact E|]. cbn [fst snd].
    split; [exact Ok1'|]. split; [exact Ok2'|].
    unfold selected_below. rewrite lanes_below_succ by lia.
    rewrite !flat_map_app, !xor_all_app. cbn [flat_map].
    rewrite !app_nil_r. fold (selected_below e row 0 i).
    fold (selected_below e row kColumnSumCount i).
    rewrite <- F1, <- F2. auto.
  - exists sum', prod'. split; [exact Hrun|]. cbn [fst snd] in *.
    split; [exact Ok1|]. split; [exact Ok2|].
    unfold selected, lanes. unfold selected_below, lanes_below in F1, F2.
    change (Z.to_nat (Z.pos kColumnLaneCount)) with (Pos.to_nat kColumnLaneCount)
      in F1, F2.
    auto.
Qed.

(** ** Encode in the Ready state *)

Lemma Encode_spec (e : Encoder) (row : Z) (symbol : FecalSymbol) :
  Ready e = true ->
  Encode row symbol e
  = Some (Fecal_Success, encoded e row,
          {| Data := SumData; Bytes := SymbolBytes (Window e); Index := row |})
  /\ Z.of_nat (length (row_sum e row)) = SymbolBytes (Window e)
  /\ Z.of_nat (length (row_product e row)) = SymbolBytes (Window e).
Proof.
  intro HR. pose proof (Ready_facts e HR) as F.
  destruct (ready_sum F) as [outputSum [HS HlS]].
  destruct (ready_product F) as [outputProduct [HP HlP]].
  pose proof (ready_final F) as Hf.
  destruct (@sparse_phase_spec e row outputSum outputProduct F HlS HlP)
    as [sum [prod [Esp [Ok1 [Ok2 [F1 F2]]]]]].
  destruct (@dense_phase_spec e row sum prod F Ok1 Ok2)
    as [sum' [prod' [Ed [Ok1' [Ok2' [F1' F2']]]]]].
  destruct (@XORSummer_Finalize_spec (SymbolBytes (Window e)) sum')
    as [sumF [EfS [DS _]]]; [lia | exact Ok1' |].
  destruct (@XORSummer_Finalize_spec (SymbolBytes (Window e)) prod')
    as [prodF [EfP [DP _]]]; [lia | exact Ok2' |].
  assert (Rs : flushed sum' = row_sum e row).
  { rewrite F1', F1. reflexivity. }
  assert (Rp : flushed prod' = row_product e row).
  { rewrite F2', F2. reflexivity. }
  pose proof (length_flushed Ok1') as L1. pose proof (length_flushed Ok2') as L2.
  rewrite Rs in L1. rewrite Rp in L2.
  split; [|split; [exact L1 | exact L2]].
  unfold Encode. rewrite HP, HS. cbn [bind].
  rewrite Esp. cbn [bind]. rewrite Ed. cbn [bind].
  rewrite EfS. cbn [bind]. rewrite EfP. cbn [bind].
  rewrite DS, DP, Rs, Rp.
  rewrite gf256_muladd_mem_Some by lia. cbn [bind].
  rewrite firstn_all2 by lia. reflexivity.
Qed.

Lemma length_muladd_bytes (vz : list Z) (y : Z) (vx : list Z) :
  length (muladd_bytes vz y vx) = length vz.
Proof. rewrite muladd_bytes_xor. apply length_xor_mem. Qed.

(** The workspace does not enter what [Ready] checks, except by its size. *)
Lemma Ready_workspace (e : Encoder) (sum product : list Z) :
  Ready e = true ->
  Z.of_nat (length sum) = SymbolBytes (Window e) ->
  Z.of_nat (length product) = SymbolBytes (Window e) ->
  Ready (set_Product (set_Sum e (Some sum)) (Some product)) = true.
Proof.
  unfold Ready. cbn [Window LaneSums Sum Product set_Product set_Sum].
  rewrite !andb_true_iff.
  intros [[[[[[[[[H1 H2] H3] H4] H5] H6] H7] H8] _] _] Hs Hp.
  repeat split; try assumption; simpl; apply Z.eqb_eq; assumption.
Qed.

Lemma Ready_encoded (e : Encoder) (row : Z) :
  Ready e = true -> Ready (encoded e row) = true.
Proof.
  intro HR.
  destruct (@Encode_spec e row {| Data := CallerData; Bytes := 0; Index := 0 |} HR)
    as [_ [Ls Lp]].
  apply Ready_workspace; [exact HR | | exact Lp].
  unfold row_symbol. rewrite length_muladd_bytes. exact Ls.
Qed.

(** The symbol of a row is a function of the window, the lane sums and
    the row; the workspace does not enter it. *)
Lemma row_symbol_encoded (e : Encoder) (row row' : Z) :
  row_symbol (encoded e row) row' = row_symbol e row'.
Proof. reflexivity. Qed.

Lemma Encode_rows_spec (rows : list Z) :
  forall (e : Encoder) (symbol : FecalSymbol),
  Ready e = true ->
  exists e' symbol',
    Encode_rows rows symbol e = Some (e', symbol')
    /\ Ready e' = true
    /\ Window e' = Window e
    /\ LaneSums e' = LaneSums e
    /\ forall row, row_symbol e' row = row_symbol e row.
Proof.
  induction rows as [|r rows IH]; intros e symbol HR.
  - exists e, symbol. simpl. auto.
  - cbn [Encode_rows].
    destruct (@Encode_spec e r symbol HR) as [E _]. rewrite E. cbn [bind].
    destruct (IH (encoded e r)
                {| Data := SumData; Bytes := SymbolBytes (Window e); Index := r |}
                (Ready_encoded e r HR))
      as [e' [symbol' [Hrun [HR' [HW [HL Hrow]]]]]].
    exists e', symbol'. split; [exact Hrun|]. split; [exact HR'|].
    split; [exact HW|]. split; [exact HL|].
    intro row. rewrite Hrow. apply row_symbol_encoded.
Qed.

(** ** Initialize: the window *)

Lemma SetParameters_true (w w' : EncoderAppDataWindow) (input_count total_bytes : Z) :
  0 <= input_count ->
  SetParameters w input_count total_bytes = (true, w') ->
  InputCount w' = input_count
  /\ 1 <= input_count
  /\ 0 < FinalBytes w' <= SymbolBytes w'
  /\ SymbolBytes w' < 2 ^ 32
  /\ OriginalData w' = OriginalData w.
Proof.
  intros Hn. unfold SetParameters.
  destruct ((input_count =? 0) || (total_bytes =? 0)) eqn:Hz;
    [discriminate|].
  apply orb_false_iff in Hz. destruct Hz as [Hn0 _]. apply Z.eqb_neq in Hn0.
  set (symbolBytes := (total_bytes + input_count - 1) / input_count).
  destruct ((total_bytes - symbolBytes * (input_count - 1) <=? 0)
            || (2 ^ 32 <=? symbolBytes)) eqn:Hf; [discriminate|].
  apply orb_false_iff in Hf. destruct Hf as [Hf Hs].
  apply Z.leb_gt in Hf, Hs.
  intro E. inversion E. subst w'. cbn.
  repeat split; try lia.
  pose proof (Z.div_mod (total_bytes + input_count - 1) input_count Hn0) as Hd.
  pose proof (Z.mod_pos_bound (total_bytes + input_count - 1) input_count) as Hm.
  fold symbolBytes in Hd. nia.
Qed.

Lemma SetParameters_false (w w' : EncoderAppDataWindow) (input_count total_bytes : Z) :
  SetParameters w input_count total_bytes = (false, w') -> w' = w.
Proof.
  unfold SetParameters.
  destruct ((input_count =? 0) || (total_bytes =? 0)).
  - intro E. inversion E. reflexivity.
  - destruct ((total_bytes - (total_bytes + input_count - 1) / input_count
                             * (input_count - 1) <=? 0)
              || (2 ^ 32 <=? (total_bytes + input_count - 1) / input_count)).
    + intro E. inversion E. reflexivity.
    + discriminate.
Qed.

Lemma vector_set_app {A : Type} (pre : list A) (x y : A) (tl : list A) :
  vector_set (pre ++ x :: tl) (length pre) y = Some (pre ++ y :: tl).
Proof.
  induction pre as [|h pre IH]; simpl.
  - reflexivity.
  - rewrite IH. reflexivity.
Qed.

Lemma length_resize {A : Type} (v : list A) (n : nat) (fill : A) :
  length (resize v n fill) = n.
Proof.
  unfold resize. rewrite length_app, length_firstn, repeat_length. lia.
Qed.

Lemma SetEncoderInput_spec (w : EncoderAppDataWindow) (input_data : nat -> ptr) :
  0 <= InputCount w ->
  SetEncoderInput (AllocateOriginals w) input_data
  = Some (set_OriginalData w (bound_originals input_data (InputCount w))).
Proof.
  intro Hn. unfold SetEncoderInput, AllocateOriginals.
  cbn [InputCount OriginalData set_OriginalData].
  set (n := InputCount w) in *.
  destruct (@for_range_invariant (list (option ptr))
    (fun i v => exists tl, v = bound_originals input_data i ++ tl
                           /\ length tl = Z.to_nat (n - i))
    (fun ii v => vector_set v (Z.to_nat ii) (Some (input_data (Z.to_nat ii))))
    0 n (resize (OriginalData w) (Z.to_nat n) None))
    as [v [Hrun [tl [Hv Htl]]]].
  - exact Hn.
  - exists (resize (OriginalData w) (Z.to_nat n) None). split; [reflexivity|].
    rewrite length_resize. f_equal. lia.
  - intros i v Hi [tl [Hv Htl]].
    destruct tl as [|x tl]; [simpl in Htl; lia|].
    exists (bound_originals input_data i ++ Some (input_data (Z.to_nat i)) :: tl).
    split.
    + subst v.
      replace (Z.to_nat i) with (length (bound_originals input_data i)) at 1
        by (unfold bound_originals; rewrite length_map, length_seq; reflexivity).
      apply vector_set_app.
    + exists tl. split.
      * unfold bound_originals.
        replace (Z.to_nat (i + 1)) with (Datatypes.S (Z.to_nat i)) by lia.
        rewrite seq_S, map_app, <- app_assoc. reflexivity.
      * simpl in Htl. lia.
  - rewrite Hrun. cbn [bind].
    destruct tl; [rewrite app_nil_r in Hv; subst v; reflexivity|].
    simpl in Htl. lia.
Qed.

Lemma forallb_bound_originals (input_data : nat -> ptr) (input_count : Z) :
  forallb is_set (bound_originals input_data input_count) = true.
Proof.
  unfold bound_originals. apply forallb_forall. intros slot Hin.
  apply in_map_iff in Hin. destruct Hin as [i [Hi _]]. subst slot. reflexivity.
Qed.

Lemma length_bound_originals (input_data : nat -> ptr) (input_count : Z) :
  length (bound_originals input_data input_count) = Z.to_nat input_count.
Proof. unfold bound_originals. rewrite length_map, length_seq. reflexivity. Qed.

(** ** Initialize: the allocations *)

Lemma iterate_flow_invariant {S : Type} (P : Z -> S -> Prop)
  (Q : FecalResult -> S -> Prop) (body : Z -> S -> option (flow S))
  (fuel : nat) :
  forall (lo : Z) (s : S),
  P lo s ->
  (forall i t, lo <= i < lo + Z.of_nat fuel -> P i t ->
     exists f, body i t = Some f
               /\ match f with
                  | Continue t' => P (i + 1) t'
                  | Return r t' => Q r t'
                  end) ->
  exists f, iterate_flow body lo fuel s = Some f
            /\ match f with
               | Continue s' => P (lo + Z.of_nat fuel) s'
               | Return r s' => Q r s'
               end.
Proof.
  induction fuel as [|fuel IH]; intros lo s Hs Hbody.
  - exists (Continue s). simpl. rewrite Z.add_0_r. auto.
  - destruct (Hbody lo s) as [f [Hf HP]]; [lia | exact Hs |].
    cbn [iterate_flow]. rewrite Hf. cbn [bind].
    destruct f as [t|r t].
    + destruct (IH (lo + 1) t HP) as [f' [Hrun Hf']].
      * intros i u Hi Hu. apply Hbody; [lia | exact Hu].
      * exists f'. split; [exact Hrun|].
        replace (lo + Z.of_nat (Datatypes.S fuel))
          with (lo + 1 + Z.of_nat fuel) by lia.
        exact Hf'.
    + exists (Return r t). auto.
Qed.

Lemma for_range_flow_invariant {S : Type} (P : Z -> S -> Prop)
  (Q : FecalResult -> S -> Prop) (body : Z -> S -> option (flow S))
  (lo hi : Z) (s : S) :
  lo <= hi ->
  P lo s ->
  (forall i t, lo <= i < hi -> P i t ->
     exists f, body i t = Some f
               /\ match f with
                  | Continue t' => P (i + 1) t'
                  | Return r t' => Q r t'
                  end) ->
  exists f, for_range_flow lo hi body s = Some f
            /\ match f with
               | Continue s' => P hi s'
               | Return r s' => Q r s'
               end.
Proof.
  intros Hle Hs Hbody. unfold for_range_flow.
  destruct (@iterate_flow_invariant S P Q body (Z.to_nat (hi - lo)) lo s Hs)
    as [f [Hrun Hf]].
  - intros i t Hi. apply Hbody. lia.
  - exists f. split; [exact Hrun|].
    replace (lo + Z.of_nat (Z.to_nat (hi - lo))) with hi in Hf by lia.
    exact Hf.
Qed.

Lemma memset_fresh (garbage : ptr) (bytes : Z) :
  0 <= bytes ->
  memset (read garbage bytes) 0 0 bytes = Some (zeros bytes).
Proof.
  intro H. unfold memset. rewrite length_read.
  replace ((0 <=? 0) && (0 <=? bytes) && (0 + bytes <=? Z.of_nat (Z.to_nat bytes)))
    with true by (symmetry; rewrite !andb_true_iff, !Z.leb_le; lia).
  change (Z.to_nat 0) with 0%nat. rewrite firstn_O. cbn [app].
  rewrite skipn_all2 by (rewrite length_read; lia).
  rewrite app_nil_r. reflexivity.
Qed.

Lemma allocate_sum_spec (malloc : allocator) (bytes : Z) (e0 e : Encoder)
  (l k : Z) :
  0 <= bytes ->
  0 <= l < Zpos kColumnLaneCount -> 0 <= k < kColumnSumCount ->
  lanes_allocated malloc bytes e0 e (3 * l + k) ->
  exists f, allocate_sum malloc bytes l k e = Some f
            /\ match f with
               | Continue e' => lanes_allocated malloc bytes e0 e' (3 * l + (k + 1))
               | Return r e' => lanes_failed malloc bytes e0 r e'
               end.
Proof.
  intros Hb Hl Hk [HW [HS [HP HL]]]. unfold allocate_sum, Allocate.
  unfold kColumnSumCount in *.
  destruct (malloc (LaneSumBuffer l k)) as [garbage|] eqn:Hm; cbn [negb bind].
  - rewrite memset_fresh by exact Hb. cbn [bind].
    eexists. split; [reflexivity|]. unfold lanes_allocated.
    cbn [Window Sum Product LaneSums set_LaneSum].
    split; [exact HW|]. split; [exact HS|]. split; [exact HP|].
    intros l' k' Hl' Hk'. unfold kColumnSumCount in Hk'.
    destruct (HL l' k' Hl' Hk') as [HLa HLb].
    destruct (Z.eqb_spec l' l) as [El|El];
      destruct (Z.eqb_spec k' k) as [Ek|Ek]; cbn [andb];
      try (split; intro Hlt; [apply HLa | apply HLb]; lia).
    subst l' k'. split; intro Hlt; [|lia].
    split; [rewrite Hm; discriminate | reflexivity].
  - eexists. split; [reflexivity|]. unfold lanes_failed, kColumnSumCount.
    cbn [Window Sum Product LaneSums set_LaneSum].
    split; [reflexivity|].
    split; [exact HW|]. split; [exact HS|]. split; [exact HP|].
    exists l, k. rewrite !Z.eqb_refl. cbn [andb].
    split; [lia|]. split; [lia|]. split; [exact Hm|]. split; [reflexivity|].
    intros l' k' Hl' Hk' Hlt. unfold kColumnSumCount in Hk'.
    destruct (HL l' k' Hl' Hk') as [HLa _].
    destruct (Z.eqb_spec l' l) as [El|El];
      destruct (Z.eqb_spec k' k) as [Ek|Ek]; cbn [andb];
      try (apply HLa; lia).
    subst l' k'. lia.
Qed.

Lemma allocate_lane_spec (malloc : allocator) (bytes : Z) (e0 e : Encoder)
  (l : Z) :
  0 <= bytes ->
  0 <= l < Zpos kColumnLaneCount ->
  lanes_allocated malloc bytes e0 e (3 * l) ->
  exists f, allocate_lane malloc bytes l e = Some f
            /\ match f with
               | Continue e' => lanes_allocated malloc bytes e0 e' (3 * (l + 1))
               | Return r e' => lanes_failed malloc bytes e0 r e'
               end.
Proof.
  intros Hb Hl Hinv. unfold allocate_lane.
  destruct (@for_range_flow_invariant Encoder
    (fun k e' => lanes_allocated malloc bytes e0 e' (3 * l + k))
    (lanes_failed malloc bytes e0)
    (allocate_sum malloc bytes l) 0 kColumnSumCount e)
    as [f [Hrun Hf]].
  - unfold kColumnSumCount. lia.
  - rewrite Z.add_0_r. exact Hinv.
  - intros k e' Hk Hinv'. apply allocate_sum_spec; assumption.
  - exists f. split; [exact Hrun|]. destruct f; [|exact Hf].
    unfold kColumnSumCount in Hf.
    replace (3 * (l + 1)) with (3 * l + 3) by lia. exact Hf.
Qed.

Lemma allocate_lane_sums_spec (malloc : allocator) (bytes : Z) (e0 : Encoder) :
  0 <= bytes ->
  exists f, allocate_lane_sums malloc bytes e0 = Some f
            /\ match f with
               | Continue e' =>
                   lanes_allocated malloc bytes e0 e' (3 * Zpos kColumnLaneCount)
               | Return r e' => lanes_failed malloc bytes e0 r e'
               end.
Proof.
  intro Hb. unfold allocate_lane_sums.
  apply (@for_range_flow_invariant Encoder
    (fun l e' => lanes_allocated malloc bytes e0 e' (3 * l))
    (lanes_failed malloc bytes e0)).
  - lia.
  - unfold lanes_allocated, kColumnSumCount.
    split; [reflexivity|]. split; [reflexivity|]. split; [reflexivity|].
    intros l k Hl Hk. split; [intro; lia | reflexivity].
  - intros l e' Hl Hinv. apply allocate_lane_spec; assumption.
Qed.

(** ** Initialize: the column loop *)

Lemma lane_columns_succ (column laneIndex : Z) :
  0 <= column ->
  lane_columns (column + 1) laneIndex
  = lane_columns column laneIndex
    ++ (if column mod Zpos kColumnLaneCount =? laneIndex then [column] else []).
Proof.
  intro Hc. unfold lane_columns.
  replace (Z.to_nat (column + 1)) with (Datatypes.S (Z.to_nat column)) by lia.
  rewrite seq_S, map_app, filter_app. cbn [map filter Nat.add].
  rewrite Z2Nat.id by exact Hc. reflexivity.
Qed.

Lemma power_sum_succ (input_data : nat -> ptr) (bytes column l k : Z) :
  0 <= column ->
  power_sum input_data bytes (column + 1) l k
  = if column mod Zpos kColumnLaneCount =? l
    then xor_mem (power_sum input_data bytes column l k)
           (column_term input_data bytes k column)
    else power_sum input_data bytes column l k.
Proof.
  intro Hc. unfold power_sum. rewrite lane_columns_succ by exact Hc.
  destruct (column mod Zpos kColumnLaneCount =? l).
  - rewrite map_app. cbn [map]. rewrite xor_all_snoc. reflexivity.
  - rewrite app_nil_r. reflexivity.
Qed.

Lemma length_power_sum (input_data : nat -> ptr) (bytes n l k : Z) :
  0 <= bytes ->
  Z.of_nat (length (power_sum input_data bytes n l k)) = bytes.
Proof.
  intro Hb. unfold power_sum. rewrite length_xor_all, repeat_length. lia.
Qed.

Lemma add_column_spec (input_data : nat -> ptr) (bytes : Z) (e0 e : Encoder)
  (column : Z) :
  0 <= bytes -> 0 <= column ->
  columns_added input_data bytes e0 e column ->
  exists e', add_column input_data bytes column e = Some e'
             /\ columns_added input_data bytes e0 e' (column + 1).
Proof.
  intros Hb Hc [HW [HS [HP HL]]]. unfold add_column.
  set (lane := column mod Zpos kColumnLaneCount).
  assert (Hlane : 0 <= lane < Zpos kColumnLaneCount)
    by (apply Z.mod_pos_bound; lia).
  set (data := read (input_data (Z.to_nat column)) bytes).
  assert (Hdata : Z.of_nat (length data) = bytes)
    by (unfold data; rewrite length_read; lia).
  pose proof (fun k => @length_power_sum input_data bytes column lane k Hb) as Hlen.
  rewrite (HL lane 0 Hlane) by (unfold kColumnSumCount; lia). cbn [bind].
  rewrite gf256_add_mem_Some by (rewrite ?Hlen; lia). cbn [bind].
  cbn [LaneSums set_LaneSum]. rewrite Z.eqb_refl.
  change (1 =? 0) with false. cbn [andb].
  rewrite (HL lane 1 Hlane) by (unfold kColumnSumCount; lia). cbn [bind].
  rewrite gf256_muladd_mem_Some by (rewrite ?Hlen; lia). cbn [bind].
  change (2 =? 1) with false. change (2 =? 0) with false. cbn [andb].
  rewrite (HL lane 2 Hlane) by (unfold kColumnSumCount; lia). cbn [bind].
  rewrite gf256_muladd_mem_Some by (rewrite ?Hlen; lia). cbn [bind].
  eexists. split; [reflexivity|].
  unfold columns_added. cbn [Window Sum Product LaneSums set_LaneSum].
  split; [exact HW|]. split; [exact HS|]. split; [exact HP|].
  intros l k Hl Hk. rewrite power_sum_succ by exact Hc. fold lane.
  rewrite !muladd_bytes_xor.
  replace (firstn (Z.to_nat bytes) data) with data
    by (symmetry; apply firstn_all2; lia).
  rewrite (Z.eqb_sym lane l).
  destruct (Z.eqb_spec l lane) as [El|El]; cbn [andb].
  - subst l. unfold kColumnSumCount in Hk.
    assert (Hk3 : k = 0 \/ k = 1 \/ k = 2) by lia.
    destruct Hk3 as [E|[E|E]]; subst k; reflexivity.
  - apply HL; assumption.
Qed.

Lemma add_columns_spec (input_data : nat -> ptr) (bytes input_count : Z)
  (e0 : Encoder) :
  0 <= bytes -> 0 <= input_count ->
  columns_added input_data bytes e0 e0 0 ->
  exists e, for_range 0 input_count (add_column input_data bytes) e0 = Some e
            /\ columns_added input_data bytes e0 e input_count.
Proof.
  intros Hb Hn H0.
  apply (@for_range_invariant Encoder
           (fun c e => columns_added input_data bytes e0 e c)).
  - exact Hn.
  - exact H0.
  - intros i e Hi Hinv. apply add_column_spec; [exact Hb | lia | exact Hinv].
Qed.

Lemma power_sum_zero (input_data : nat -> ptr) (bytes l k : Z) :
  power_sum input_data bytes 0 l k = zeros bytes.
Proof. reflexivity. Qed.

(** ** Initialize as a whole *)

Lemma Initialize_invalid (malloc : allocator) (input_count : Z)
  (input_data : nat -> ptr) (total_bytes : Z) (e0 : Encoder)
  (w : EncoderAppDataWindow) :
  SetParameters (Window e0) input_count total_bytes = (false, w) ->
  Initialize malloc input_count input_data total_bytes e0
  = Some (Fecal_InvalidInput, e0).
Proof. intro H. unfold Initialize. rewrite H. reflexivity. Qed.

Lemma Initialize_cases (malloc : allocator) (input_count : Z)
  (input_data : nat -> ptr) (total_bytes : Z) (e0 : Encoder)
  (w : EncoderAppDataWindow) :
  0 <= input_count ->
  SetParameters (Window e0) input_count total_bytes = (true, w) ->
  exists r e,
    Initialize malloc input_count input_data total_bytes e0 = Some (r, e)
    /\ ((r = Fecal_OutOfMemory
         /\ init_OutOfMemory malloc (SymbolBytes w)
              (with_window e0 w input_data) e)
        \/ (r = Fecal_Success
            /\ init_Success malloc input_data (SymbolBytes w) input_count
                 (with_window e0 w input_data) e)).
Proof.
  intros Hn HSP.
  destruct (@SetParameters_true _ _ _ _ Hn HSP) as [HIC [Hn1 [Hfb [Hsb Hod]]]].
  unfold Initialize. rewrite HSP. cbn [negb].
  rewrite SetEncoderInput_spec by lia. cbn [bind].
  cbn [SymbolBytes set_OriginalData].
  fold (with_window e0 w input_data).
  set (e1 := with_window e0 w input_data).
  set (bytes := SymbolBytes w) in *.
  destruct (@allocate_lane_sums_spec malloc bytes e1) as [f [Hal Hf]]; [lia|].
  rewrite Hal. cbn [bind].
  destruct f as [e2|r e2].
  - unfold allocate_workspace, Allocate.
    destruct (malloc SumBuffer) as [garbageSum|] eqn:HmS; cbn [negb].
    + destruct (malloc ProductBuffer) as [garbageProduct|] eqn:HmP; cbn [negb].
      * set (e3 := set_Product (set_Sum e2 (Some (read garbageSum bytes)))
                     (Some (read garbageProduct bytes))).
        destruct Hf as [HW [HS [HP HL]]].
        assert (Hz : forall l k, 0 <= l < Zpos kColumnLaneCount ->
                       0 <= k < kColumnSumCount ->
                       malloc (LaneSumBuffer l k) <> None
                       /\ LaneSums e2 l k = Some (zeros bytes)).
        { intros l k Hl Hk. destruct (HL l k) as [Ha _]; [lia | exact Hk |].
          apply Ha. unfold kColumnSumCount in Hk. lia. }
        destruct (@add_columns_spec input_data bytes input_count e3)
          as [e [Hrun [HW' [HS' [HP' HL']]]]]; [lia | lia | |].
        { unfold columns_added. repeat split.
          intros l k Hl Hk. unfold e3. cbn [LaneSums set_Product set_Sum].
          rewrite power_sum_zero. apply Hz; assumption. }
        rewrite Hrun. cbn [bind]. exists Fecal_Success, e.
        split; [reflexivity|]. right. split; [reflexivity|].
        split.
        { intros l k Hl Hk. apply Hz; assumption. }
        exists garbageSum, garbageProduct.
        split; [exact HmS|]. split; [exact HmP|].
        split; [rewrite HW'; exact HW|].
        split; [rewrite HS'; reflexivity|].
        split; [rewrite HP'; reflexivity|].
        exact HL'.
      * eexists _, _. split; [reflexivity|]. left. split; [reflexivity|].
        right. right. exists e2, garbageSum. auto.
    + eexists _, _. split; [reflexivity|]. left. split; [reflexivity|].
      right. left. exists e2. auto.
  - exists r, e2. split; [reflexivity|]. left.
    destruct Hf as [Hr Hrest]. split; [exact Hr|]. left. subst r.
    split; [reflexivity | exact Hrest].
Qed.

(** [Initialize] always returns. *)
Lemma Initialize_total (malloc : allocator) (input_count : Z)
  (input_data : nat -> ptr) (total_bytes : Z) (e0 : Encoder) :
  0 <= input_count ->
  exists r e,
    Initialize malloc input_count input_data total_bytes e0 = Some (r, e).
Proof.
  intro Hn.
  destruct (SetParameters (Window e0) input_count total_bytes) as [[|] w] eqn:HSP.
  - destruct (@Initialize_cases malloc input_count input_data total_bytes e0 w Hn HSP)
      as [r [e [H _]]]. eauto.
  - rewrite (@Initialize_invalid malloc input_count input_data total_bytes e0 w HSP).
    eauto.
Qed.

(** What a successful [Initialize] leaves. *)
Lemma Initialize_Success (malloc : allocator) (input_count : Z)
  (input_data : nat -> ptr) (total_bytes : Z) (e0 e : Encoder) :
  0 <= input_count < 2 ^ 32 ->
  Initialize malloc input_count input_data total_bytes e0
  = Some (Fecal_Success, e) ->
  exists w,
    SetParameters (Window e0) input_count total_bytes = (true, w)
    /\ init_Success malloc input_data (SymbolBytes w) input_count
         (with_window e0 w input_data) e
    /\ Ready e = true.
Proof.
  intros Hn HI.
  destruct (SetParameters (Window e0) input_count total_bytes) as [[|] w] eqn:HSP.
  - destruct (@Initialize_cases malloc input_count input_data total_bytes e0 w)
      as [r [e' [HI' [[Hr _]|[_ HS]]]]]; [lia | exact HSP | |].
    + rewrite HI in HI'. inversion HI'. subst. discriminate.
    + rewrite HI in HI'. inversion HI'. subst e'. clear HI'.
      exists w. split; [reflexivity|]. split; [exact HS|].
      destruct (@SetParameters_true _ _ _ _ (proj1 Hn) HSP)
        as [HIC [Hn1 [Hfb [Hsb Hod]]]].
      destruct HS as [_ [gS [gP [_ [_ [HW [HSum [HProd HL]]]]]]]].
      unfold Ready. rewrite HW, HSum, HProd.
      cbn [with_window set_Window Window set_OriginalData InputCount
           FinalBytes SymbolBytes OriginalData has_size].
      rewrite !length_read, length_bound_originals, forallb_bound_originals.
      rewrite HIC.
      replace (1 <=? input_count) with true by (symmetry; apply Z.leb_le; lia).
      replace (input_count <? 2 ^ 32) with true by (symmetry; apply Z.ltb_lt; lia).
      replace (0 <? FinalBytes w) with true by (symmetry; apply Z.ltb_lt; lia).
      replace (FinalBytes w <=? SymbolBytes w) with true
        by (symmetry; apply Z.leb_le; lia).
      replace (SymbolBytes w <? 2 ^ 32) with true by (symmetry; apply Z.ltb_lt; lia).
      replace (Z.of_nat (Z.to_nat input_count) =? input_count) with true
        by (symmetry; apply Z.eqb_eq; lia).
      replace (Z.of_nat (Z.to_nat (SymbolBytes w)) =? SymbolBytes w) with true
        by (symmetry; apply Z.eqb_eq; lia).
      cbn [andb]. rewrite ?andb_true_r.
      apply forallb_forall. intros l Hl. apply In_lanes in Hl.
      apply forallb_forall. intros k Hk. apply In_sums in Hk.
      rewrite (HL l k Hl Hk). cbn [has_size]. apply Z.eqb_eq.
      apply length_power_sum. lia.
  - rewrite (@Initialize_invalid malloc input_count input_data total_bytes e0 w HSP)
      in HI. discriminate.
Qed.

(** ** The claims *)

Lemma row_symbol_length (e : Encoder) (row : Z) :
  Ready e = true ->
  Z.of_nat (length (row_symbol e row)) = SymbolBytes (Window e).
Proof.
  intro HR.
  destruct (@Encode_spec e row {| Data := CallerData; Bytes := 0; Index := 0 |} HR)
    as [_ [Ls _]].
  unfold row_symbol. rewrite length_muladd_bytes. exact Ls.
Qed.

Lemma Encode_output_spec (e : Encoder) (row : Z) (symbol : FecalSymbol) :
  Ready e = true ->
  Encode_output row symbol e = Some (Fecal_Success, Some (row_symbol e row)).
Proof.
  intro HR. unfold Encode_output.
  destruct (@Encode_spec e row symbol HR) as [E _]. rewrite E. cbn [bind].
  unfold symbol_bytes, encoded. cbn [Data Bytes Sum set_Sum set_Product option_map].
  rewrite firstn_all2; [reflexivity|].
  pose proof (row_symbol_length e row HR). lia.
Qed.

(** C1. Determinism and row independence. After a successful
    [Initialize], there is for every row one byte string such that
    [Encode] of that row returns Success with exactly these bytes,
    whatever [Encode] calls (of this row or of others, any number of them)
    came before; each of those calls leaves the encoder in the Ready
    state. *)
Theorem Encode_deterministic (malloc : allocator) (input_count : Z)
  (input_data : nat -> ptr) (total_bytes : Z) (e0 e : Encoder) (row : Z) :
  0 <= input_count < 2 ^ 32 ->
  Initialize malloc input_count input_data total_bytes e0
  = Some (Fecal_Success, e) ->
  exists bytes,
    forall (before : list Z) (symbol : FecalSymbol),
    exists e' symbol',
      Encode_rows before symbol e = Some (e', symbol')
      /\ Ready e' = true
      /\ Encode_output row symbol' e' = Some (Fecal_Success, Some bytes).
Proof.
  intros Hn HI.
  destruct (@Initialize_Success malloc input_count input_data total_bytes e0 e Hn HI)
    as [w [_ [_ HR]]].
  exists (row_symbol e row). intros before symbol.
  destruct (@Encode_rows_spec before e symbol HR)
    as [e' [symbol' [Hrun [HR' [_ [_ Hrow]]]]]].
  exists e', symbol'. split; [exact Hrun|]. split; [exact HR'|].
  rewrite Encode_output_spec by exact HR'. rewrite Hrow. reflexivity.
Qed.

(** C9. Frame of [Encode]. In the Ready state [Encode] returns Success
    and leaves the window (its parameters and the borrowed column
    pointers with the caller's memory behind them) and every lane sum as
    they were: the encoder it leaves differs from the one it found in the
    [Sum] and [Product] workspace only. *)
Theorem Encode_frame (e : Encoder) (row : Z) (symbol : FecalSymbol) :
  Ready e = true ->
  exists e' symbol',
    Encode row symbol e = Some (Fecal_Success, e', symbol')
    /\ InputCount (Window e') = InputCount (Window e)
    /\ SymbolBytes (Window e') = SymbolBytes (Window e)
    /\ FinalBytes (Window e') = FinalBytes (Window e)
    /\ OriginalData (Window e') = OriginalData (Window e)
    /\ LaneSums e' = LaneSums e
    /\ e' = set_Product (set_Sum e (Sum e')) (Product e').
Proof.
  intro HR. destruct (@Encode_spec e row symbol HR) as [E _].
  eexists _, _. split; [exact E|]. unfold encoded. cbn. auto 10.
Qed.

(** C4. The dense phase. Whatever the two accumulators hold when the
    dense phase starts, it runs through every lane and, once the summers
    are flushed, [Sum] has gained exactly the lane sums [LaneSums[L][k]]
    whose bit [k] is set in [GetRowOpcode(L, row)], and [Product] exactly
    those whose bit [kColumnSumCount + k] is set. *)
Theorem dense_phase_selects (e : Encoder) (row : Z) (sum prod : XORSummer) :
  Ready e = true ->
  summer_ok (SymbolBytes (Window e)) sum ->
  summer_ok (SymbolBytes (Window e)) prod ->
  exists sum' prod' sumF prodF,
    dense_phase row e (sum, prod) = Some (sum', prod')
    /\ XORSummer_Finalize sum' = Some sumF
    /\ XORSummer_Finalize prod' = Some prodF
    /\ DestBuffer sumF = xor_all (flushed sum) (selected e row 0)
    /\ DestBuffer prodF
       = xor_all (flushed prod) (selected e row kColumnSumCount).
Proof.
  intros HR Hs Hp. pose proof (Ready_facts e HR) as F.
  pose proof (ready_final F) as Hf.
  destruct (@dense_phase_spec e row sum prod F Hs Hp)
    as [sum' [prod' [Ed [Ok1 [Ok2 [F1 F2]]]]]].
  destruct (@XORSummer_Finalize_spec (SymbolBytes (Window e)) sum')
    as [sumF [EfS [DS _]]]; [lia | exact Ok1 |].
  destruct (@XORSummer_Finalize_spec (SymbolBytes (Window e)) prod')
    as [prodF [EfP [DP _]]]; [lia | exact Ok2 |].
  exists sum', prod', sumF, prodF.
  split; [exact Ed|]. split; [exact EfS|]. split; [exact EfP|].
  rewrite DS, DP, F1, F2. auto.
Qed.

Lemma nth_muladd_bytes (vz : list Z) (y : Z) (vx : list Z) (i : nat) :
  (i < length vz)%nat -> (i < length vx)%nat ->
  nth i (muladd_bytes vz y vx) 0
  = Z.lxor (nth i vz 0) (gf256_mul y (nth i vx 0)).
Proof.
  revert vx i. induction vz as [|a vz IH]; intros [|b vx] i Hz Hx;
    simpl in *; try lia.
  destruct i as [|i]; [reflexivity|]. apply IH; lia.
Qed.

(** C5. The final combination. In the Ready state, let [sum] and [prod]
    be the two accumulators after the sparse and the dense phase. Both
    are flushed, with nothing left waiting, and the symbol [Encode]
    returns is, byte for byte, the flushed Sum plus [RX] times the
    flushed Product, with [RX = GetRowValue(row)], which is not zero. *)
Theorem Encode_final_combination (e : Encoder) (row : Z) (symbol : FecalSymbol) :
  Ready e = true ->
  exists outputSum outputProduct sum prod sumF prodF out,
    Sum e = Some outputSum
    /\ Product e = Some outputProduct
    /\ (st <- sparse_phase row (Window e) outputSum outputProduct ;;
        dense_phase row e st) = Some (sum, prod)
    /\ XORSummer_Finalize sum = Some sumF /\ Waiting sumF = None
    /\ XORSummer_Finalize prod = Some prodF /\ Waiting prodF = None
    /\ Encode_output row symbol e = Some (Fecal_Success, Some out)
    /\ Z.of_nat (length out) = SymbolBytes (Window e)
    /\ (forall i, (i < length out)%nat ->
          nth i out 0
          = Z.lxor (nth i (DestBuffer sumF) 0)
              (gf256_mul (GetRowValue row) (nth i (DestBuffer prodF) 0)))
    /\ GetRowValue row <> 0.
Proof.
  intro HR. pose proof (Ready_facts e HR) as F.
  destruct (ready_sum F) as [outputSum [HS HlS]].
  destruct (ready_product F) as [outputProduct [HP HlP]].
  pose proof (ready_final F) as Hf.
  destruct (@sparse_phase_spec e row outputSum outputProduct F HlS HlP)
    as [sum0 [prod0 [Esp [Ok1 [Ok2 [F1 F2]]]]]].
  destruct (@dense_phase_spec e row sum0 prod0 F Ok1 Ok2)
    as [sum [prod [Ed [Ok1' [Ok2' [F1' F2']]]]]].
  destruct (@XORSummer_Finalize_spec (SymbolBytes (Window e)) sum)
    as [sumF [EfS [DS WS]]]; [lia | exact Ok1' |].
  destruct (@XORSummer_Finalize_spec (SymbolBytes (Window e)) prod)
    as [prodF [EfP [DP WP]]]; [lia | exact Ok2' |].
  destruct (@Encode_spec e row symbol HR) as [_ [Ls Lp]].
  pose proof (row_symbol_length e row HR) as Lo.
  exists outputSum, outputProduct, sum, prod, sumF, prodF, (row_symbol e row).
  split; [exact HS|]. split; [exact HP|].
  split; [rewrite Esp; cbn [bind]; exact Ed|].
  split; [exact EfS|]. split; [exact WS|].
  split; [exact EfP|]. split; [exact WP|].
  split; [apply Encode_output_spec; exact HR|].
  split; [exact Lo|].
  split; [|apply GetRowValue_nonzero].
  intros i Hi.
  assert (Rs : DestBuffer sumF = row_sum e row)
    by (rewrite DS, F1', F1; reflexivity).
  assert (Rp : DestBuffer prodF = row_product e row)
    by (rewrite DP, F2', F2; reflexivity).
  rewrite Rs, Rp. unfold row_symbol. apply nth_muladd_bytes; lia.
Qed.

(** C6. The lane sums. A successful [Initialize] first allocates every
    lane sum with [SymbolBytes] bytes, all zero; the column loop then
    leaves in [LaneSums[lane][k]] the zero buffer with, for every column
    [c] below [input_count] with [c mod kColumnLaneCount = lane], in
    increasing order, the term of degree [k] added: the [SymbolBytes]
    bytes at [input_data[c]] for [k = 0], these bytes times
    [GetColumnValue(c)] for [k = 1] and times its square for [k = 2]. *)
Theorem Initialize_power_sums (malloc : allocator) (input_count : Z)
  (input_data : nat -> ptr) (total_bytes : Z) (e0 e : Encoder) :
  0 <= input_count < 2 ^ 32 ->
  Initialize malloc input_count input_data total_bytes e0
  = Some (Fecal_Success, e) ->
  exists w e1,
    SetParameters (Window e0) input_count total_bytes = (true, w)
    /\ SymbolBytes (Window e) = SymbolBytes w
    /\ allocate_lane_sums malloc (SymbolBytes w) (with_window e0 w input_data)
       = Some (Continue e1)
    /\ forall l k,
         0 <= l < Zpos kColumnLaneCount -> 0 <= k < kColumnSumCount ->
         LaneSums e1 l k = Some (repeat 0 (Z.to_nat (SymbolBytes w)))
         /\ LaneSums e l k
            = Some (power_sum input_data (SymbolBytes w) input_count l k).
Proof.
  intros Hn HI.
  destruct (@Initialize_Success malloc input_count input_data total_bytes e0 e Hn HI)
    as [w [HSP [[Hgrant [gS [gP [_ [_ [HW [_ [_ HL]]]]]]]] _]]].
  destruct (@SetParameters_true _ _ _ _ (proj1 Hn) HSP) as [_ [_ [Hfb _]]].
  destruct (@allocate_lane_sums_spec malloc (SymbolBytes w)
              (with_window e0 w input_data)) as [f [Hal Hf]]; [lia|].
  destruct f as [e1|r e1].
  - exists w, e1. split; [exact HSP|].
    split; [rewrite HW; reflexivity|]. split; [exact Hal|].
    intros l k Hl Hk. split; [|apply HL; assumption].
    destruct Hf as [_ [_ [_ Hz]]].
    destruct (Hz l k) as [Ha _]; [lia | exact Hk |].
    apply Ha. unfold kColumnSumCount in Hk. lia.
  - exfalso. destruct Hf as [_ [_ [_ [_ [l [k [Hl [Hk [Hnone _]]]]]]]]].
    exact (Hgrant l k Hl Hk Hnone).
Qed.

Lemma Encode_uninitialized (e : Encoder) (row : Z) (symbol : FecalSymbol) :
  Product e = None ->
  Encode row symbol e = Some (Fecal_InvalidInput, e, symbol).
Proof. intro H. unfold Encode. rewrite H. reflexivity. Qed.

(** A failed [Initialize] on an encoder whose [Product] is null leaves
    [Product] null. *)
Lemma Initialize_failed_Product (malloc : allocator) (input_count : Z)
  (input_data : nat -> ptr) (total_bytes : Z) (e0 e : Encoder)
  (r : FecalResult) :
  0 <= input_count ->
  Product e0 = None ->
  Initialize malloc input_count input_data total_bytes e0 = Some (r, e) ->
  r <> Fecal_Success ->
  Product e = None.
Proof.
  intros Hn HP HI Hr.
  destruct (SetParameters (Window e0) input_count total_bytes) as [[|] w] eqn:HSP.
  - destruct (@Initialize_cases malloc input_count input_data total_bytes e0 w Hn HSP)
      as [r' [e' [HI' Hcase]]].
    rewrite HI in HI'. inversion HI'. subst r' e'. clear HI'.
    destruct Hcase as [[_ Hoom]|[Hs _]]; [|contradiction].
    destruct Hoom as [Hfail|[[e2 [Hal [_ He]]]|[e2 [g [Hal [_ [_ He]]]]]]].
    + destruct Hfail as [_ [_ [_ [HP' _]]]]. rewrite HP'. exact HP.
    + subst e. cbn. destruct Hal as [_ [_ [HP' _]]]. rewrite HP'. exact HP.
    + subst e. reflexivity.
  - rewrite (@Initialize_invalid malloc input_count input_data total_bytes e0 w HSP)
      in HI.
    inversion HI. subst. exact HP.
Qed.

(** [Initialize] answers InvalidInput only when it has changed nothing. *)
Lemma Initialize_InvalidInput_unchanged (malloc : allocator) (input_count : Z)
  (input_data : nat -> ptr) (total_bytes : Z) (e0 e : Encoder) :
  0 <= input_count ->
  Initialize malloc input_count input_data total_bytes e0
  = Some (Fecal_InvalidInput, e) ->
  e = e0.
Proof.
  intros Hn HI.
  destruct (SetParameters (Window e0) input_count total_bytes) as [[|] w] eqn:HSP.
  - destruct (@Initialize_cases malloc input_count input_data total_bytes e0 w Hn HSP)
      as [r' [e' [HI' Hcase]]].
    rewrite HI in HI'. inversion HI'. subst r' e'.
    destruct Hcase as [[Hr _]|[Hr _]]; discriminate.
  - rewrite (@Initialize_invalid malloc input_count input_data total_bytes e0 w HSP)
      in HI.
    inversion HI. reflexivity.
Qed.

(** Before any [Initialize] has succeeded, failed ones included,
    [Product] is null. *)
Lemma lifecycle_before_success (e : Encoder) (initialized : bool) :
  lifecycle e initialized ->
  initialized = false ->
  Product e = None.
Proof.
  induction 1 as [ | e b malloc n data total e' _ IH Hn HI
                   | e b malloc n data total e' _ IH Hn HI
                   | e b malloc n data total e' _ _ Hn HI
                   | e b row symbol r e' symbol' _ IH HE ]; intro Hb.
  - reflexivity.
  - rewrite (@Initialize_InvalidInput_unchanged malloc n data total e e'
               (proj1 Hn) HI).
    exact (IH Hb).
  - apply (@Initialize_failed_Product malloc n data total e e' Fecal_OutOfMemory);
      [lia | exact (IH Hb) | exact HI | discriminate].
  - discriminate.
  - specialize (IH Hb).
    rewrite (@Encode_uninitialized e row symbol IH) in HE.
    inversion HE. subst. exact IH.
Qed.

(** Before any [Initialize] has succeeded, failed ones included, [Encode]
    returns InvalidInput and leaves the encoder and the symbol as they
    were. *)
Lemma Encode_before_success (e : Encoder) (row : Z) (symbol : FecalSymbol) :
  lifecycle e false ->
  Encode row symbol e = Some (Fecal_InvalidInput, e, symbol).
Proof.
  intro HL. apply Encode_uninitialized.
  exact (lifecycle_before_success HL eq_refl).
Qed.

(** The rule holds in every state of an encoder's life but those where
    some [Initialize] has succeeded and the encoder is not Ready. *)
Lemma refuses_iff_uninitialized_unless_stale (e : Encoder)
  (initialized : bool) (row : Z) (symbol : FecalSymbol) :
  lifecycle e initialized ->
  (initialized = true -> Ready e = true) ->
  refuses_iff_uninitialized e initialized row symbol.
Proof.
  intros HL HR. unfold refuses_iff_uninitialized.
  destruct initialized.
  - specialize (HR eq_refl).
    destruct (@Encode_spec e row symbol HR) as [E _].
    pose proof (row_symbol_length e row HR) as Lo.
    eexists _, _, _. split; [exact E|].
    split; [split; discriminate|].
    split; [discriminate|].
    intros _. split; [reflexivity|]. split; [reflexivity|].
    exists (row_symbol e row). split; [reflexivity|]. split; [exact Lo|].
    unfold symbol_bytes, encoded.
    cbn [Data Bytes Sum set_Sum set_Product option_map].
    rewrite firstn_all2 by lia. reflexivity.
  - eexists _, _, _. split; [apply Encode_before_success; exact HL|].
    split; [split; reflexivity|].
    split; [auto|]. intro H. contradiction H. reflexivity.
Qed.

(** C8, as the code has it. When an allocation is refused during
    [Initialize] of an encoder that is not Ready, the call returns
    OutOfMemory and leaves [Product] null, so that every later [Encode]
    returns InvalidInput. Nothing is released before the return: every
    lane sum allocated before the refusal is still allocated (and
    cleared), and so is [Sum] when the refusal came at [Product]. *)
Theorem Initialize_OutOfMemory (malloc : allocator) (input_count : Z)
  (input_data : nat -> ptr) (total_bytes : Z) (e0 : Encoder)
  (w : EncoderAppDataWindow) :
  0 <= input_count < 2 ^ 32 ->
  Product e0 = None ->
  SetParameters (Window e0) input_count total_bytes = (true, w) ->
  allocation_refused malloc ->
  exists e,
    Initialize malloc input_count input_data total_bytes e0
    = Some (Fecal_OutOfMemory, e)
    /\ Product e = None
    /\ (forall row symbol,
          Encode row symbol e = Some (Fecal_InvalidInput, e, symbol))
    /\ (forall l k,
          0 <= l < Zpos kColumnLaneCount -> 0 <= k < kColumnSumCount ->
          (forall l' k', 0 <= l' -> 0 <= k' < kColumnSumCount ->
             3 * l' + k' <= 3 * l + k ->
             malloc (LaneSumBuffer l' k') <> None) ->
          LaneSums e l k = Some (repeat 0 (Z.to_nat (SymbolBytes w))))
    /\ ((forall l k,
           0 <= l < Zpos kColumnLaneCount -> 0 <= k < kColumnSumCount ->
           malloc (LaneSumBuffer l k) <> None) ->
        forall garbage, malloc SumBuffer = Some garbage ->
        Sum e = Some (read garbage (SymbolBytes w))).
Proof.
  intros Hn HP HSP Href.
  destruct (@Initialize_cases malloc input_count input_data total_bytes e0 w
              (proj1 Hn) HSP) as [r [e [HI Hcase]]].
  destruct Hcase as [[Hr Hoom]|[_ Hs]].
  - subst r. exists e. split; [exact HI|].
    assert (HPe : Product e = None).
    { apply (@Initialize_failed_Product malloc input_count input_data total_bytes
               e0 e Fecal_OutOfMemory); [lia | exact HP | exact HI | discriminate]. }
    split; [exact HPe|].
    split; [intros row symbol; apply Encode_uninitialized; exact HPe|].
    assert (Hall : forall e2,
              lanes_allocated malloc (SymbolBytes w)
                (with_window e0 w input_data) e2 (3 * Zpos kColumnLaneCount) ->
              forall l k, 0 <= l < Zpos kColumnLaneCount ->
                0 <= k < kColumnSumCount ->
                malloc (LaneSumBuffer l k) <> None
                /\ LaneSums e2 l k = Some (zeros (SymbolBytes w))).
    { intros e2 [_ [_ [_ Hz]]] l k Hl Hk.
      destruct (Hz l k) as [Ha _]; [lia | exact Hk |].
      apply Ha. unfold kColumnSumCount in Hk. lia. }
    destruct Hoom as [Hfail|[[e2 [Hal [HmS He]]]|[e2 [g [Hal [HmS [HmP He]]]]]]].
    + destruct Hfail as [_ [_ [_ [_ [l' [k' [Hl' [Hk' [Hnone [_ Hbefore]]]]]]]]]].
      split.
      * intros l k Hl Hk Hgranted.
        destruct (Z_lt_le_dec (3 * l + k) (3 * l' + k')) as [Hlt|Hge].
        -- apply Hbefore; [lia | exact Hk | exact Hlt].
        -- exfalso. apply (Hgranted l' k'); [lia | exact Hk' | exact Hge | exact Hnone].
      * intros Hgranted. exfalso. exact (Hgranted l' k' Hl' Hk' Hnone).
    + subst e. cbn [LaneSums Sum set_Sum]. split.
      * intros l k Hl Hk _. apply (Hall e2 Hal l k Hl Hk).
      * intros _ garbage Hg. rewrite HmS in Hg. discriminate.
    + subst e. cbn [LaneSums Sum set_Sum set_Product]. split.
      * intros l k Hl Hk _. apply (Hall e2 Hal l k Hl Hk).
      * intros _ garbage Hg. rewrite HmS in Hg. inversion Hg. reflexivity.
  - exfalso. destruct Hs as [Hgrant [gS [gP [HmS [HmP _]]]]].
    destruct Href as [[l [k [Hl [Hk Hnone]]]]|[Hnone|Hnone]].
    + exact (Hgrant l k Hl Hk Hnone).
    + rewrite HmS in Hnone. discriminate.
    + rewrite HmP in Hnone. discriminate.
Qed.

Lemma ceil_div_pos (n k : Z) : 1 <= n -> 0 < k -> 1 <= ceil_div n k.
Proof.
  intros Hn Hk. unfold ceil_div.
  apply Z.div_le_lower_bound; lia.
Qed.

(** Where the 32-bit sum does not wrap, [pairCount] is the ceiling. *)
Lemma pairCount_ceil_div (w : EncoderAppDataWindow) :
  0 <= InputCount w ->
  InputCount w + Zpos kPairAddRate - 1 < 2 ^ 32 ->
  pairCount w = ceil_div (InputCount w) (Zpos kPairAddRate).
Proof.
  intros Hn Hw. unfold pairCount, ceil_div, wrap32.
  rewrite Z.mod_small by lia. reflexivity.
Qed.

(** Where it wraps: with the largest 32-bit count of columns and any
    [kPairAddRate] from 2 on, [pairCount] is 0. *)
Lemma pairCount_wrapped (w : EncoderAppDataWindow) :
  InputCount w = 4294967295 ->
  2 <= Zpos kPairAddRate < 2 ^ 32 ->
  pairCount w = 0 /\ sparse_iterations w = 1%nat.
Proof.
  intros Hn Hk. unfold sparse_iterations.
  assert (H : pairCount w = 0).
  { unfold pairCount, wrap32. rewrite Hn.
    replace (4294967295 + Zpos kPairAddRate - 1)
      with (Zpos kPairAddRate - 2 + 1 * 2 ^ 32) by lia.
    rewrite Z.mod_add by lia. rewrite Z.mod_small by lia.
    apply Z.div_small. lia. }
  rewrite H. split; reflexivity.
Qed.

(** The sparse phase where [pairCount] does not wrap: exactly
    [ceil(n / kPairAddRate)] pairs are drawn, the first is copied, the
    later ones are added, as they come. *)
Lemma sparse_phase_without_wrap (e : Encoder) (row : Z)
  (outputSum outputProduct : list Z) :
  ReadyFacts e ->
  InputCount (Window e) + Zpos kPairAddRate - 1 < 2 ^ 32 ->
  Z.of_nat (length outputSum) = SymbolBytes (Window e) ->
  Z.of_nat (length outputProduct) = SymbolBytes (Window e) ->
  Z.of_nat (length (row_elements (Window e) row))
  = ceil_div (InputCount (Window e)) (Zpos kPairAddRate)
  /\ exists sum prod,
       sparse_phase row (Window e) outputSum outputProduct = Some (sum, prod)
       /\ flushed sum
          = sparse_sum (Window e) (map fst (row_elements (Window e) row))
       /\ flushed prod
          = sparse_sum (Window e) (map snd (row_elements (Window e) row)).
Proof.
  intros F Hw HlS HlP. pose proof (ready_count F) as Hc. split.
  - unfold row_elements. rewrite length_draws. unfold sparse_iterations.
    rewrite pairCount_ceil_div by lia.
    pose proof (@ceil_div_pos (InputCount (Window e)) (Zpos kPairAddRate)).
    lia.
  - destruct (@sparse_phase_spec e row outputSum outputProduct F HlS HlP)
      as [sum [prod [E [_ [_ [F1 F2]]]]]].
    exists sum, prod. auto.
Qed.

(** The first pair overwrites: the sparse phase does not depend on what
    the workspace held. *)
Lemma sparse_phase_overwrites (e : Encoder) (row : Z)
  (sum1 product1 sum2 product2 : list Z) :
  ReadyFacts e ->
  Z.of_nat (length sum1) = SymbolBytes (Window e) ->
  Z.of_nat (length product1) = SymbolBytes (Window e) ->
  Z.of_nat (length sum2) = SymbolBytes (Window e) ->
  Z.of_nat (length product2) = SymbolBytes (Window e) ->
  sparse_phase row (Window e) sum1 product1
  = sparse_phase row (Window e) sum2 product2.
Proof.
  intros F H1 H2 H3 H4. pose proof (ready_count F) as Hc.
  unfold sparse_phase.
  set (prng := Seed row (InputCount (Window e))).
  rewrite next_element_spec by lia. cbn [bind].
  set (element1 := fst (Next prng) mod InputCount (Window e)).
  set (prng1 := snd (Next prng)).
  assert (He1 : 0 <= element1 < InputCount (Window e))
    by (apply Z.mod_pos_bound; lia).
  destruct (ready_originals F He1) as [original1 Ho1]. rewrite Ho1. cbn [bind].
  rewrite next_element_spec by lia. cbn [bind].
  set (elementRX := fst (Next prng1) mod InputCount (Window e)).
  assert (HeX : 0 <= elementRX < InputCount (Window e))
    by (apply Z.mod_pos_bound; lia).
  destruct (ready_originals F HeX) as [originalRX HoX]. rewrite HoX. cbn [bind].
  rewrite (@copy_original_spec e element1 original1 sum1 F Ho1 H1),
    (@copy_original_spec e element1 original1 sum2 F Ho1 H3),
    (@copy_original_spec e elementRX originalRX product1 F HoX H2),
    (@copy_original_spec e elementRX originalRX product2 F HoX H4).
  reflexivity.
Qed.

(** C10. Safety of the sparse phase. In the Ready state (at least one
    column) [ceil(inputCount / kPairAddRate)] is at least 1, and it is
    what [pairCount] holds wherever the 32-bit sum does not wrap; the
    body of the sparse phase runs at least once, the first pair being
    unrolled ahead of the loop; every index drawn lies in
    [[0, inputCount)] and finds a bound column pointer; with a single
    column every index is 0; the accumulators after the sparse phase do
    not depend on what the workspace held before; and [Encode] runs to
    Success without any access out of bounds. *)
Theorem sparse_phase_safe (e : Encoder) (row : Z) (symbol : FecalSymbol) :
  Ready e = true ->
  1 <= ceil_div (InputCount (Window e)) (Zpos kPairAddRate)
  /\ (InputCount (Window e) + Zpos kPairAddRate - 1 < 2 ^ 32 ->
      pairCount (Window e)
      = ceil_div (InputCount (Window e)) (Zpos kPairAddRate))
  /\ (1 <= length (row_elements (Window e) row))%nat
  /\ Forall (fun d =>
               (0 <= fst d < InputCount (Window e)
                /\ original_at (Window e) (fst d) <> None)
               /\ (0 <= snd d < InputCount (Window e)
                   /\ original_at (Window e) (snd d) <> None))
       (row_elements (Window e) row)
  /\ (InputCount (Window e) = 1 ->
      Forall (fun d => d = (0, 0)) (row_elements (Window e) row))
  /\ (forall sum1 product1 sum2 product2,
        Z.of_nat (length sum1) = SymbolBytes (Window e) ->
        Z.of_nat (length product1) = SymbolBytes (Window e) ->
        Z.of_nat (length sum2) = SymbolBytes (Window e) ->
        Z.of_nat (length product2) = SymbolBytes (Window e) ->
        exists sum prod,
          sparse_phase row (Window e) sum1 product1 = Some (sum, prod)
          /\ sparse_phase row (Window e) sum2 product2 = Some (sum, prod))
  /\ exists e' symbol',
       Encode row symbol e = Some (Fecal_Success, e', symbol').
Proof.
  intro HR. pose proof (Ready_facts e HR) as F.
  pose proof (ready_count F) as Hc.
  pose proof (@draws_in_range (InputCount (Window e))
                (Seed row (InputCount (Window e)))
                (sparse_iterations (Window e))) as Hd.
  split; [apply ceil_div_pos; lia|].
  split; [apply pairCount_ceil_div; lia|].
  split.
  { unfold row_elements. rewrite length_draws. unfold sparse_iterations. lia. }
  split.
  { unfold row_elements. eapply Forall_impl; [|apply Hd; lia].
    intros d [H1 H2]. split; (split; [assumption|]).
    - destruct (ready_originals F H1) as [p Hp]. rewrite Hp. discriminate.
    - destruct (ready_originals F H2) as [p Hp]. rewrite Hp. discriminate. }
  split.
  { intro H1. unfold row_elements. eapply Forall_impl; [|apply Hd; lia].
    intros [a b] [Ha Hb]. cbn [fst snd] in *. f_equal; lia. }
  split.
  { intros sum1 product1 sum2 product2 H1 H2 H3 H4.
    destruct (@sparse_phase_spec e row sum1 product1 F H1 H2)
      as [sum [prod [E _]]].
    exists sum, prod. split; [exact E|].
    rewrite <- (@sparse_phase_overwrites e row sum1 product1 sum2 product2 F
                  H1 H2 H3 H4).
    exact E. }
  destruct (@Encode_spec e row symbol HR) as [E _]. eauto.
Qed.

(** ** Further properties: the window *)

Lemma vector_set_outside {A : Type} (v : list A) (i : nat) (x : A) :
  (length v <= i)%nat -> vector_set v i x = None.
Proof.
  revert i. induction v as [|h v IH]; intros i Hi; simpl in *.
  - reflexivity.
  - destruct i as [|i]; [lia|]. rewrite IH by lia. reflexivity.
Qed.

(** The binding loop of [SetEncoderInput], started at any position: it
    runs through when the vector has a slot for every index, and leaves
    the vector by its end otherwise. *)
Lemma bind_loop (input_data : nat -> ptr) (fuel : nat) :
  forall (pre tl : list (option ptr)),
  iterate
    (fun ii v => vector_set v (Z.to_nat ii) (Some (input_data (Z.to_nat ii))))
    (Z.of_nat (length pre)) fuel (pre ++ tl)
  = if (fuel <=? length tl)%nat
    then Some (pre ++ map (fun i => Some (input_data i)) (seq (length pre) fuel)
               ++ skipn fuel tl)
    else None.
Proof.
  induction fuel as [|fuel IH]; intros pre tl.
  - cbn. reflexivity.
  - cbn [iterate]. rewrite Nat2Z.id.
    destruct tl as [|x tl].
    + rewrite app_nil_r. rewrite vector_set_outside by lia. reflexivity.
    + rewrite vector_set_app. cbn [bind].
      replace (pre ++ Some (input_data (length pre)) :: tl)
        with ((pre ++ [Some (input_data (length pre))]) ++ tl)
        by (rewrite <- app_assoc; reflexivity).
      replace (Z.of_nat (length pre) + 1)
        with (Z.of_nat (length (pre ++ [Some (input_data (length pre))])))
        by (rewrite length_app; cbn; lia).
      rewrite IH. cbn [length Nat.leb].
      destruct (fuel <=? length tl)%nat; [|reflexivity].
      rewrite length_app. cbn [length seq map skipn].
      replace (length pre + 1)%nat with (Datatypes.S (length pre)) by lia.
      rewrite <- !app_assoc. reflexivity.
Qed.

(** X2. The bounds of [SetEncoderInput]. With a slot for every column,
    the first [InputCount] slots are bound to the caller's pointers, in
    order, and the later slots are left as they are; with fewer slots
    than columns the loop writes past the end of the vector. *)
Theorem SetEncoderInput_bounds (w : EncoderAppDataWindow)
  (input_data : nat -> ptr) :
  SetEncoderInput w input_data
  = if (Z.to_nat (InputCount w) <=? length (OriginalData w))%nat
    then Some (set_OriginalData w
                 (bound_originals input_data (InputCount w)
                  ++ skipn (Z.to_nat (InputCount w)) (OriginalData w)))
    else None.
Proof.
  unfold SetEncoderInput, for_range.
  pose proof (bind_loop input_data (Z.to_nat (InputCount w - 0)) []
                (OriginalData w)) as H.
  cbn [length app] in H. change (Z.of_nat 0) with 0 in H.
  rewrite H. rewrite Z.sub_0_r.
  destruct (Z.to_nat (InputCount w) <=? length (OriginalData w))%nat;
    reflexivity.
Qed.

(** X1. [AllocateOriginals] then [SetEncoderInput]. Whatever the vector
    held and however long it was, it ends up with exactly one slot per
    column, bound to the caller's pointers in order. *)
Theorem AllocateOriginals_then_SetEncoderInput (w : EncoderAppDataWindow)
  (input_data : nat -> ptr) :
  SetEncoderInput (AllocateOriginals w) input_data
  = Some (set_OriginalData w (bound_originals input_data (InputCount w)))
  /\ length (bound_originals input_data (InputCount w))
     = Z.to_nat (InputCount w)
  /\ forall column, (column < Z.to_nat (InputCount w))%nat ->
       nth_error (bound_originals input_data (InputCount w)) column
       = Some (Some (input_data column)).
Proof.
  split; [|split].
  - unfold SetEncoderInput, for_range, AllocateOriginals.
    cbn [InputCount OriginalData set_OriginalData].
    pose proof (bind_loop input_data (Z.to_nat (InputCount w - 0)) []
                  (resize (OriginalData w) (Z.to_nat (InputCount w)) None)) as H.
    cbn [length app] in H. change (Z.of_nat 0) with 0 in H.
    rewrite H. rewrite Z.sub_0_r, length_resize, Nat.leb_refl. cbn [bind].
    rewrite skipn_all2 by (rewrite length_resize; lia).
    rewrite app_nil_r. reflexivity.
  - apply length_bound_originals.
  - intros column Hc. unfold bound_originals.
    rewrite nth_error_map, nth_error_seq.
    replace (column <? Z.to_nat (InputCount w))%nat with true
      by (symmetry; apply Nat.ltb_lt; exact Hc).
    reflexivity.
Qed.

(** ** Further properties: the outcome of Initialize *)

(** X3. [Initialize] always returns, never leaving the bounds of a buffer
    or of the vector it owns, and its result code is decided as follows: InvalidInput exactly
    when [SetParameters] rejects the arguments; OutOfMemory exactly when
    they are accepted and the allocator refuses one of the buffers;
    Success exactly when they are accepted and every buffer is granted.
    This holds on any encoder, new, Ready or left by a failed call. *)
Theorem Initialize_outcome (malloc : allocator) (input_count : Z)
  (input_data : nat -> ptr) (total_bytes : Z) (e0 : Encoder) :
  0 <= input_count ->
  exists r e,
    Initialize malloc input_count input_data total_bytes e0 = Some (r, e)
    /\ (r = Fecal_InvalidInput
        <-> fst (SetParameters (Window e0) input_count total_bytes) = false)
    /\ (r = Fecal_OutOfMemory
        <-> fst (SetParameters (Window e0) input_count total_bytes) = true
            /\ allocation_refused malloc)
    /\ (r = Fecal_Success
        <-> fst (SetParameters (Window e0) input_count total_bytes) = true
            /\ ~ allocation_refused malloc).
Proof.
  intro Hn.
  destruct (SetParameters (Window e0) input_count total_bytes) as [[|] w] eqn:HSP;
    cbn [fst].
  - destruct (@Initialize_cases malloc input_count input_data total_bytes e0 w Hn HSP)
      as [r [e [HI Hcase]]].
    exists r, e. split; [exact HI|].
    assert (Hgranted :
              init_Success malloc input_data (SymbolBytes w) input_count
                (with_window e0 w input_data) e ->
              ~ allocation_refused malloc).
    { intros [Hgrant [gS [gP [HmS [HmP _]]]]] Href.
      destruct Href as [[l [k [Hl [Hk Hnone]]]]|[Hnone|Hnone]].
      - exact (Hgrant l k Hl Hk Hnone).
      - rewrite HmS in Hnone. discriminate.
      - rewrite HmP in Hnone. discriminate. }
    assert (Hrefused :
              init_OutOfMemory malloc (SymbolBytes w)
                (with_window e0 w input_data) e ->
              allocation_refused malloc).
    { intros [Hfail|[[e2 [_ [HmS _]]]|[e2 [g [_ [_ [HmP _]]]]]]].
      - destruct Hfail as [_ [_ [_ [_ [l [k [Hl [Hk [Hnone _]]]]]]]]].
        left. exists l, k. auto.
      - right. left. exact HmS.
      - right. right. exact HmP. }
    destruct Hcase as [[Hr Hoom]|[Hr Hs]]; subst r.
    + split; [split; discriminate|].
      split; [split; auto|].
      split; [discriminate|]. intros [_ Hnot]. exfalso. auto.
    + split; [split; discriminate|].
      split; [split; [discriminate|]|split; auto].
      intros [_ Href]. exfalso. exact (Hgranted Hs Href).
  - rewrite (@Initialize_invalid malloc input_count input_data total_bytes e0 w HSP).
    exists Fecal_InvalidInput, e0. split; [reflexivity|].
    split; [split; reflexivity|].
    split; split; try discriminate; intros [H _]; discriminate.
Qed.

(** Whatever the encoder, an [Encode] that returns has either refused
    (null [Product], nothing changed) or succeeded. *)
Lemma Encode_returns (e e' : Encoder) (row : Z) (symbol symbol' : FecalSymbol)
  (r : FecalResult) :
  Encode row symbol e = Some (r, e', symbol') ->
  (Product e = None /\ r = Fecal_InvalidInput /\ e' = e /\ symbol' = symbol)
  \/ (Product e <> None /\ r = Fecal_Success
      /\ Window e' = Window e /\ LaneSums e' = LaneSums e).
Proof.
  unfold Encode. destruct (Product e) as [outputProduct|] eqn:HP.
  - intro H. right. split; [discriminate|].
    apply bind_Some in H. destruct H as [outputSum [_ H]].
    apply bind_Some in H. destruct H as [st [_ H]].
    apply bind_Some in H. destruct H as [[sum prod] [_ H]].
    apply bind_Some in H. destruct H as [sumF [_ H]].
    apply bind_Some in H. destruct H as [prodF [_ H]].
    apply bind_Some in H. destruct H as [out [_ H]].
    inversion H. subst. auto.
  - intro H. inversion H. subst. left. auto.
Qed.

(** X8. What a failed [Initialize] does to the test [Encode] relies on.
    When the call runs out of memory at a lane sum or at [Sum], it
    returns before [Product] is allocated: [Product] is what it was, so
    that on an encoder that was Ready no later [Encode] returns
    InvalidInput. When it runs out of memory at [Product] itself,
    [Product] is null and every later [Encode] returns InvalidInput. *)
Theorem Initialize_OutOfMemory_Product (malloc : allocator) (input_count : Z)
  (input_data : nat -> ptr) (total_bytes : Z) (e0 e : Encoder) :
  0 <= input_count ->
  Initialize malloc input_count input_data total_bytes e0
  = Some (Fecal_OutOfMemory, e) ->
  ((exists l k, 0 <= l < Zpos kColumnLaneCount /\ 0 <= k < kColumnSumCount
                /\ malloc (LaneSumBuffer l k) = None)
   \/ malloc SumBuffer = None ->
   Product e = Product e0
   /\ (Product e0 <> None ->
       forall row symbol r e' symbol',
       Encode row symbol e = Some (r, e', symbol') -> r = Fecal_Success))
  /\ (~ ((exists l k, 0 <= l < Zpos kColumnLaneCount /\ 0 <= k < kColumnSumCount
                      /\ malloc (LaneSumBuffer l k) = None)
         \/ malloc SumBuffer = None) ->
      Product e = None
      /\ forall row symbol,
         Encode row symbol e = Some (Fecal_InvalidInput, e, symbol)).
Proof.
  intros Hn HI.
  destruct (SetParameters (Window e0) input_count total_bytes) as [[|] w] eqn:HSP.
  2:{ rewrite (@Initialize_invalid malloc input_count input_data total_bytes e0 w HSP)
        in HI. discriminate. }
  destruct (@Initialize_cases malloc input_count input_data total_bytes e0 w Hn HSP)
    as [r [e' [HI' Hcase]]].
  rewrite HI in HI'. inversion HI'. subst r e'. clear HI'.
  destruct Hcase as [[_ Hoom]|[Hr _]]; [|discriminate].
  assert (Hall : forall e2,
            lanes_allocated malloc (SymbolBytes w)
              (with_window e0 w input_data) e2 (3 * Zpos kColumnLaneCount) ->
            forall l k, 0 <= l < Zpos kColumnLaneCount ->
              0 <= k < kColumnSumCount ->
              malloc (LaneSumBuffer l k) <> None).
  { intros e2 [_ [_ [_ Hz]]] l k Hl Hk.
    destruct (Hz l k) as [Ha _]; [lia | exact Hk |].
    apply Ha. unfold kColumnSumCount in Hk. lia. }
  assert (Hstale : Product e = Product e0 ->
            Product e = Product e0
            /\ (Product e0 <> None ->
                forall row symbol r e' symbol',
                Encode row symbol e = Some (r, e', symbol') ->
                r = Fecal_Success)).
  { intro HP. split; [exact HP|]. intros Hready row symbol r e' symbol' HE.
    destruct (Encode_returns _ _ _ HE) as [[Hnull _]|[_ [Hr _]]]; [|exact Hr].
    rewrite HP in Hnull. contradiction. }
  destruct Hoom as [Hfail|[[e2 [Hal [HmS He]]]|[e2 [g [Hal [HmS [HmP He]]]]]]].
  - destruct Hfail as [_ [_ [_ [HP [l [k [Hl [Hk [Hnone _]]]]]]]]].
    split.
    + intros _. apply Hstale. rewrite HP. reflexivity.
    + intro Hnot. exfalso. apply Hnot. left. exists l, k. auto.
  - split.
    + intros _. apply Hstale. subst e. cbn.
      destruct Hal as [_ [_ [HP _]]]. rewrite HP. reflexivity.
    + intro Hnot. exfalso. apply Hnot. right. exact HmS.
  - split.
    + intros [[l [k [Hl [Hk Hnone]]]]|Hnone].
      * exfalso. exact (Hall e2 Hal l k Hl Hk Hnone).
      * rewrite HmS in Hnone. discriminate.
    + intros _. subst e. split; [reflexivity|].
      intros row symbol. apply Encode_uninitialized. reflexivity.
Qed.

(** ** Further properties: what the symbols depend on *)

Lemma SetParameters_fields (w0 w : EncoderAppDataWindow)
  (input_count total_bytes : Z) :
  SetParameters w0 input_count total_bytes = (true, w) ->
  InputCount w = input_count
  /\ SymbolBytes w = (total_bytes + input_count - 1) / input_count
  /\ FinalBytes w
     = total_bytes
       - (total_bytes + input_count - 1) / input_count * (input_count - 1).
Proof.
  unfold SetParameters.
  destruct ((input_count =? 0) || (total_bytes =? 0)); [discriminate|].
  destruct ((total_bytes - (total_bytes + input_count - 1) / input_count
                           * (input_count - 1) <=? 0)
            || (2 ^ 32 <=? (total_bytes + input_count - 1) / input_count));
    [discriminate|].
  intro E. inversion E. cbn. auto.
Qed.

(** The encoder a successful [Initialize] leaves, in terms of its
    arguments. *)
Lemma Initialize_Success_view (malloc : allocator) (input_count : Z)
  (input_data : nat -> ptr) (total_bytes : Z) (e0 e : Encoder) :
  0 <= input_count < 2 ^ 32 ->
  Initialize malloc input_count input_data total_bytes e0
  = Some (Fecal_Success, e) ->
  Ready e = true
  /\ InputCount (Window e) = input_count
  /\ SymbolBytes (Window e) = (total_bytes + input_count - 1) / input_count
  /\ FinalBytes (Window e)
     = total_bytes
       - (total_bytes + input_count - 1) / input_count * (input_count - 1)
  /\ OriginalData (Window e) = bound_originals input_data input_count
  /\ forall l k, 0 <= l < Zpos kColumnLaneCount -> 0 <= k < kColumnSumCount ->
       LaneSums e l k
       = Some (power_sum input_data (SymbolBytes (Window e)) input_count l k).
Proof.
  intros Hn HI.
  destruct (@Initialize_Success malloc input_count input_data total_bytes e0 e Hn HI)
    as [w [HSP [[_ [gS [gP [_ [_ [HW [_ [_ HL]]]]]]]] HR]]].
  destruct (@SetParameters_fields _ _ _ _ HSP) as [HIC [HSB HFB]].
  split; [exact HR|]. rewrite HW.
  cbn [with_window set_Window Window set_OriginalData InputCount SymbolBytes
       FinalBytes OriginalData].
  rewrite HIC. auto.
Qed.

Lemma original_at_bound (w : EncoderAppDataWindow) (input_data : nat -> ptr)
  (element : Z) :
  OriginalData w = bound_originals input_data (InputCount w) ->
  0 <= element < InputCount w ->
  original_at w element = Some (input_data (Z.to_nat element)).
Proof.
  intros HO He. unfold original_at. rewrite HO. unfold bound_originals.
  rewrite nth_error_map, nth_error_seq.
  replace (Z.to_nat element <? Z.to_nat (InputCount w))%nat with true
    by (symmetry; apply Nat.ltb_lt; lia).
  reflexivity.
Qed.

Lemma firstn_seq_min (n start len : nat) :
  firstn n (seq start len) = seq start (Nat.min n len).
Proof.
  revert start len. induction n as [|n IH]; intros start [|len]; cbn; auto.
  f_equal. apply IH.
Qed.

Lemma firstn_read_le (p : ptr) (a b : Z) :
  a <= b -> firstn (Z.to_nat a) (read p b) = read p a.
Proof.
  intro H. unfold read. rewrite firstn_map, firstn_seq_min.
  rewrite Nat.min_l by lia. reflexivity.
Qed.

Lemma In_lane_columns (input_count laneIndex c : Z) :
  In c (lane_columns input_count laneIndex) <->
  0 <= c < input_count /\ c mod Zpos kColumnLaneCount = laneIndex.
Proof.
  unfold lane_columns. rewrite filter_In, in_map_iff, Z.eqb_eq. split.
  - intros [[i [Hi Hin]] Hm]. apply in_seq in Hin. split; [lia | exact Hm].
  - intros [Hc Hm]. split; [|exact Hm].
    exists (Z.to_nat c). split; [lia|]. apply in_seq. lia.
Qed.

Lemma power_sum_ext (d1 d2 : nat -> ptr) (bytes input_count l k : Z) :
  same_lane_columns bytes input_count l d1 d2 ->
  power_sum d1 bytes input_count l k = power_sum d2 bytes input_count l k.
Proof.
  intro Hsame. unfold power_sum. f_equal. apply map_ext_in.
  intros c Hc. apply In_lane_columns in Hc. destruct Hc as [Hc Hm].
  unfold column_term. rewrite (Hsame c Hc Hm). reflexivity.
Qed.

Lemma same_columns_lane (bytes input_count l : Z) (d1 d2 : nat -> ptr) :
  same_columns bytes input_count d1 d2 ->
  same_lane_columns bytes input_count l d1 d2.
Proof. intros H c Hc _. apply H. lia. Qed.

Lemma selected_selection (e : Encoder) (row base : Z) :
  selected e row base
  = map (fun lk => lane_data e (fst lk) (snd lk)) (selection row base).
Proof.
  unfold selected, selection. induction lanes as [|l ls IH].
  - reflexivity.
  - cbn [flat_map]. rewrite map_app, IH. f_equal.
    rewrite map_map. reflexivity.
Qed.

Lemma In_selection (row base l k : Z) :
  In (l, k) (selection row base) ->
  0 <= l < Zpos kColumnLaneCount /\ 0 <= k < kColumnSumCount.
Proof.
  unfold selection. rewrite in_flat_map.
  intros [l' [Hl' Hin]]. apply in_map_iff in Hin.
  destruct Hin as [k' [E Hk']]. inversion E. subst l' k'.
  apply filter_In in Hk'. destruct Hk' as [Hk' _].
  split; [apply In_lanes; exact Hl' | apply In_sums; exact Hk'].
Qed.

Lemma row_elements_in_range (w : EncoderAppDataWindow) (row : Z) :
  0 < InputCount w ->
  Forall (fun element => 0 <= element < InputCount w)
    (map fst (row_elements w row))
  /\ Forall (fun element => 0 <= element < InputCount w)
       (map snd (row_elements w row)).
Proof.
  intro Hn. unfold row_elements.
  pose proof (@draws_in_range (InputCount w) (Seed row (InputCount w))
                (sparse_iterations w) Hn) as H.
  rewrite Forall_forall in H.
  split; apply Forall_forall; intros x Hx; apply in_map_iff in Hx;
    destruct Hx as [d [E Hd]]; subst x; apply (H d Hd).
Qed.

Lemma sparse_sum_ext (w w' : EncoderAppDataWindow) (elements : list Z) :
  Forall (fun element => column_symbol w element = column_symbol w' element)
    elements ->
  sparse_sum w elements = sparse_sum w' elements.
Proof.
  intro H. destruct elements as [|first rest]; [reflexivity|].
  inversion H as [|x xs Hfirst Hrest]. subst. cbn [sparse_sum].
  rewrite Hfirst. f_equal. apply map_ext_in.
  rewrite Forall_forall in Hrest. exact Hrest.
Qed.

(** The symbol of a row is decided by the column count, by the columns
    read as symbols and by the lane sums. *)
Lemma row_symbol_ext (e e' : Encoder) (row : Z) :
  0 < InputCount (Window e) ->
  InputCount (Window e) = InputCount (Window e') ->
  (forall element, 0 <= element < InputCount (Window e) ->
     column_symbol (Window e) element = column_symbol (Window e') element) ->
  (forall l k, 0 <= l < Zpos kColumnLaneCount -> 0 <= k < kColumnSumCount ->
     lane_data e l k = lane_data e' l k) ->
  row_symbol e row = row_symbol e' row.
Proof.
  intros Hn HIC Hcol Hlane.
  assert (Hel : row_elements (Window e) row = row_elements (Window e') row).
  { unfold row_elements, sparse_iterations, pairCount. rewrite HIC. reflexivity. }
  assert (Hsel : forall base, selected e row base = selected e' row base).
  { intro base. rewrite !selected_selection. apply map_ext_in.
    intros [l k] Hin. apply In_selection in Hin. cbn [fst snd].
    apply Hlane; tauto. }
  destruct (@row_elements_in_range (Window e) row Hn) as [H1 HX].
  unfold row_symbol, row_sum, row_product.
  rewrite <- Hel, !Hsel.
  rewrite (@sparse_sum_ext (Window e) (Window e') (map fst (row_elements (Window e) row))),
    (@sparse_sum_ext (Window e) (Window e') (map snd (row_elements (Window e) row))).
  - reflexivity.
  - eapply Forall_impl; [|exact HX]. intros x Hx. apply Hcol. exact Hx.
  - eapply Forall_impl; [|exact H1]. intros x Hx. apply Hcol. exact Hx.
Qed.

(** A column read as a symbol, in terms of the caller's pointer. *)
Lemma column_symbol_bound (w : EncoderAppDataWindow) (input_data : nat -> ptr)
  (element : Z) :
  OriginalData w = bound_originals input_data (InputCount w) ->
  0 <= element < InputCount w ->
  FinalBytes w <= SymbolBytes w ->
  column_symbol w element
  = if element =? InputCount w - 1
    then firstn (Z.to_nat (FinalBytes w))
           (read (input_data (Z.to_nat element)) (SymbolBytes w))
         ++ repeat 0 (Z.to_nat (SymbolBytes w - FinalBytes w))
    else read (input_data (Z.to_nat element)) (SymbolBytes w).
Proof.
  intros HO He Hf. unfold column_symbol.
  rewrite (@original_at_bound w input_data element HO He).
  unfold IsFinalColumn. rewrite firstn_read_le by exact Hf. reflexivity.
Qed.

(** X4. What the repair symbols depend on. Two encoders initialized with
    the same column count and total size, from columns that show the same
    [SymbolBytes] bytes each, return the same bytes for every row:
    neither the state the encoder was in before [Initialize], nor what
    the freshly allocated buffers held, nor the caller's memory beyond
    [SymbolBytes] bytes of a column enters a symbol. *)
Theorem Encode_depends_on_columns_only (m1 m2 : allocator) (input_count : Z)
  (d1 d2 : nat -> ptr) (total_bytes : Z) (e1 e2 e1' e2' : Encoder) (row : Z)
  (s1 s2 : FecalSymbol) :
  0 <= input_count < 2 ^ 32 ->
  Initialize m1 input_count d1 total_bytes e1 = Some (Fecal_Success, e1') ->
  Initialize m2 input_count d2 total_bytes e2 = Some (Fecal_Success, e2') ->
  same_columns (SymbolBytes (Window e1')) input_count d1 d2 ->
  exists bytes,
    Encode_output row s1 e1' = Some (Fecal_Success, Some bytes)
    /\ Encode_output row s2 e2' = Some (Fecal_Success, Some bytes).
Proof.
  intros Hn HI1 HI2 Hsame.
  destruct (@Initialize_Success_view m1 input_count d1 total_bytes e1 e1' Hn HI1)
    as [HR1 [HIC1 [HSB1 [HFB1 [HO1 HL1]]]]].
  destruct (@Initialize_Success_view m2 input_count d2 total_bytes e2 e2' Hn HI2)
    as [HR2 [HIC2 [HSB2 [HFB2 [HO2 HL2]]]]].
  pose proof (Ready_facts e1' HR1) as F1.
  pose proof (ready_count F1) as Hc. pose proof (ready_final F1) as Hf.
  assert (HSB : SymbolBytes (Window e2') = SymbolBytes (Window e1'))
    by (rewrite HSB1, HSB2; reflexivity).
  assert (HFB : FinalBytes (Window e2') = FinalBytes (Window e1'))
    by (rewrite HFB1, HFB2; reflexivity).
  exists (row_symbol e1' row).
  split; [apply Encode_output_spec; exact HR1|].
  rewrite Encode_output_spec by exact HR2. do 3 f_equal.
  symmetry. apply row_symbol_ext.
  - lia.
  - rewrite HIC1, HIC2. reflexivity.
  - intros element He.
    rewrite (@column_symbol_bound (Window e1') d1 element)
      by (rewrite ?HIC1; auto; lia).
    rewrite (@column_symbol_bound (Window e2') d2 element)
      by (rewrite ?HIC2, ?HSB, ?HFB; auto; lia).
    rewrite HIC2, HSB, HFB, <- HIC1.
    rewrite (Hsame (Z.to_nat element)) by lia. reflexivity.
  - intros l k Hl Hk. unfold lane_data.
    rewrite (HL1 l k Hl Hk), (HL2 l k Hl Hk), HSB.
    apply power_sum_ext. apply same_columns_lane. exact Hsame.
Qed.

(** X6. A lane sum depends on the columns of its own lane only: two
    successful [Initialize] calls with the same column count and total
    size, from columns that agree (over [SymbolBytes] bytes) wherever
    [column mod kColumnLaneCount] is the lane, leave the same three sums
    in that lane, however the other columns differ. *)
Theorem lane_sums_depend_on_own_columns (m1 m2 : allocator) (input_count : Z)
  (d1 d2 : nat -> ptr) (total_bytes : Z) (e1 e2 e1' e2' : Encoder) (l k : Z) :
  0 <= input_count < 2 ^ 32 ->
  Initialize m1 input_count d1 total_bytes e1 = Some (Fecal_Success, e1') ->
  Initialize m2 input_count d2 total_bytes e2 = Some (Fecal_Success, e2') ->
  0 <= l < Zpos kColumnLaneCount -> 0 <= k < kColumnSumCount ->
  same_lane_columns (SymbolBytes (Window e1')) input_count l d1 d2 ->
  LaneSums e1' l k = LaneSums e2' l k.
Proof.
  intros Hn HI1 HI2 Hl Hk Hsame.
  destruct (@Initialize_Success_view m1 input_count d1 total_bytes e1 e1' Hn HI1)
    as [_ [_ [HSB1 [_ [_ HL1]]]]].
  destruct (@Initialize_Success_view m2 input_count d2 total_bytes e2 e2' Hn HI2)
    as [_ [_ [HSB2 [_ [_ HL2]]]]].
  rewrite (HL1 l k Hl Hk), (HL2 l k Hl Hk).
  replace (SymbolBytes (Window e2')) with (SymbolBytes (Window e1'))
    by (rewrite HSB1, HSB2; reflexivity).
  f_equal. apply power_sum_ext. exact Hsame.
Qed.

(** X7. With fewer columns than lanes, the lanes from [input_count] on
    receive no column: their three sums are allocated and stay zero. *)
Theorem lanes_without_columns_stay_zero (malloc : allocator) (input_count : Z)
  (input_data : nat -> ptr) (total_bytes : Z) (e0 e : Encoder) (l k : Z) :
  0 <= input_count < 2 ^ 32 ->
  Initialize malloc input_count input_data total_bytes e0
  = Some (Fecal_Success, e) ->
  input_count <= l < Zpos kColumnLaneCount -> 0 <= k < kColumnSumCount ->
  LaneSums e l k = Some (repeat 0 (Z.to_nat (SymbolBytes (Window e)))).
Proof.
  intros Hn HI Hl Hk.
  destruct (@Initialize_Success_view malloc input_count input_data total_bytes
              e0 e Hn HI) as [_ [_ [_ [_ [_ HL]]]]].
  rewrite (HL l k) by (try exact Hk; lia).
  f_equal. unfold power_sum.
  replace (lane_columns input_count l) with (@nil Z); [reflexivity|].
  symmetry. destruct (lane_columns input_count l) as [|c cs] eqn:E;
    [reflexivity|].
  exfalso.
  assert (Hin : In c (lane_columns input_count l)) by (rewrite E; left; reflexivity).
  apply In_lane_columns in Hin. destruct Hin as [Hc Hm].
  rewrite Z.mod_small in Hm by lia. lia.
Qed.

(** ** Further properties: linearity *)

Lemma xor_mem_map2 {A : Type} (f g : A -> Z) (l : list A) :
  xor_mem (map f l) (map g l) = map (fun x => Z.lxor (f x) (g x)) l.
Proof.
  induction l as [|x l IH]; cbn; [reflexivity|]. rewrite IH. reflexivity.
Qed.

Lemma read_xor_columns (d1 d2 : nat -> ptr) (c : nat) (bytes : Z) :
  read (xor_columns d1 d2 c) bytes = xor_mem (read (d1 c) bytes) (read (d2 c) bytes).
Proof. unfold read, xor_columns. rewrite xor_mem_map2. reflexivity. Qed.

Lemma xor_mem_interchange (b1 b2 t1 t2 : list Z) :
  length b2 = length b1 -> length t1 = length b1 -> length t2 = length b1 ->
  xor_mem (xor_mem b1 b2) (xor_mem t1 t2)
  = xor_mem (xor_mem b1 t1) (xor_mem b2 t2).
Proof.
  revert b2 t1 t2.
  induction b1 as [|a b1 IH]; intros [|b b2] [|c t1] [|d t2] H1 H2 H3;
    cbn in *; try discriminate; [reflexivity|].
  f_equal.
  - rewrite !Z.lxor_assoc. f_equal.
    rewrite <- !Z.lxor_assoc. f_equal. apply Z.lxor_comm.
  - apply IH; congruence.
Qed.

Lemma map_mul_xor_mem (y : Z) (a b : list Z) :
  additive_table ->
  map (gf256_mul y) (xor_mem a b)
  = xor_mem (map (gf256_mul y) a) (map (gf256_mul y) b).
Proof.
  intro Hadd. revert b. induction a as [|x a IH]; intros [|z b]; cbn; auto.
  rewrite Hadd, IH. reflexivity.
Qed.

Lemma xor_mem_zeros (n : nat) : xor_mem (repeat 0 n) (repeat 0 n) = repeat 0 n.
Proof. induction n as [|n IH]; cbn; [reflexivity|]. rewrite IH. reflexivity. Qed.

Lemma xor_mem_app (a b z z' : list Z) :
  length a = length b ->
  xor_mem (a ++ z) (b ++ z') = xor_mem a b ++ xor_mem z z'.
Proof.
  revert b. induction a as [|x a IH]; intros [|y b] H; cbn in *;
    try discriminate; [reflexivity|].
  rewrite IH by congruence. reflexivity.
Qed.

Lemma firstn_xor_mem (n : nat) (a b : list Z) :
  firstn n (xor_mem a b) = xor_mem (firstn n a) (firstn n b).
Proof.
  revert a b. induction n as [|n IH]; intros a b; [reflexivity|].
  destruct a as [|x a]; [reflexivity|].
  destruct b as [|y b]; cbn; [reflexivity|].
  f_equal. apply IH.
Qed.

(** Sums of sums: adding the termwise sums of two families onto the sum
    of two bases gives the sum of the two totals. *)
Lemma xor_all_linear {C : Type} (f1 f2 : C -> list Z) (cs : list C) :
  forall b1 b2,
  length b2 = length b1 ->
  (forall c, In c cs -> length (f1 c) = length b1 /\ length (f2 c) = length b1) ->
  xor_all (xor_mem b1 b2) (map (fun c => xor_mem (f1 c) (f2 c)) cs)
  = xor_mem (xor_all b1 (map f1 cs)) (xor_all b2 (map f2 cs)).
Proof.
  induction cs as [|c cs IH]; intros b1 b2 Hb Hf.
  - reflexivity.
  - cbn [map]. rewrite !xor_all_cons.
    destruct (Hf c (or_introl eq_refl)) as [H1 H2].
    rewrite xor_mem_interchange by congruence.
    apply IH.
    + rewrite !length_xor_mem. exact Hb.
    + intros c' Hc'. rewrite length_xor_mem. apply Hf. right. exact Hc'.
Qed.

Lemma length_column_term (input_data : nat -> ptr) (bytes k c : Z) :
  length (column_term input_data bytes k c) = Z.to_nat bytes.
Proof.
  unfold column_term.
  destruct (k =? 0); [|destruct (k =? 1)];
    rewrite ?length_map; apply length_read.
Qed.

Lemma column_term_linear (d1 d2 : nat -> ptr) (bytes k c : Z) :
  additive_table ->
  column_term (xor_columns d1 d2) bytes k c
  = xor_mem (column_term d1 bytes k c) (column_term d2 bytes k c).
Proof.
  intro Hadd. unfold column_term. rewrite read_xor_columns.
  destruct (k =? 0); [reflexivity|].
  destruct (k =? 1); apply map_mul_xor_mem; exact Hadd.
Qed.

Lemma power_sum_linear (d1 d2 : nat -> ptr) (bytes input_count l k : Z) :
  additive_table ->
  power_sum (xor_columns d1 d2) bytes input_count l k
  = xor_mem (power_sum d1 bytes input_count l k)
      (power_sum d2 bytes input_count l k).
Proof.
  intro Hadd. unfold power_sum.
  rewrite <- (xor_mem_zeros (Z.to_nat bytes)) at 1.
  rewrite <- xor_all_linear.
  - f_equal. apply map_ext. intro c. apply column_term_linear. exact Hadd.
  - reflexivity.
  - intros c _. rewrite !length_column_term, repeat_length. auto.
Qed.

Lemma sparse_sum_linear (w1 w2 w12 : EncoderAppDataWindow) (elements : list Z)
  (n : nat) :
  (forall element, In element elements ->
     column_symbol w12 element
     = xor_mem (column_symbol w1 element) (column_symbol w2 element)
     /\ length (column_symbol w1 element) = n
     /\ length (column_symbol w2 element) = n) ->
  sparse_sum w12 elements
  = xor_mem (sparse_sum w1 elements) (sparse_sum w2 elements).
Proof.
  intro H. destruct elements as [|first rest]; [reflexivity|].
  cbn [sparse_sum].
  destruct (H first (or_introl eq_refl)) as [Hfirst [L1 L2]].
  rewrite Hfirst.
  rewrite (map_ext_in (column_symbol w12)
             (fun c => xor_mem (column_symbol w1 c) (column_symbol w2 c)))
    by (intros c Hc; apply H; right; exact Hc).
  apply xor_all_linear; [congruence|].
  intros c Hc. destruct (H c (or_intror Hc)) as [_ [L1' L2']]. split; congruence.
Qed.

(** X5. The code is linear. With a multiplication table that is additive
    in the data byte, the symbol of a row for the bytewise sum (XOR) of
    two blocks of columns is the bytewise sum of the symbols of that row
    for the two blocks. *)
Theorem Encode_linear (m1 m2 m12 : allocator) (input_count : Z)
  (d1 d2 : nat -> ptr) (total_bytes : Z) (e1 e2 e12 e1' e2' e12' : Encoder)
  (row : Z) (s1 s2 s12 : FecalSymbol) :
  additive_table ->
  0 <= input_count < 2 ^ 32 ->
  Initialize m1 input_count d1 total_bytes e1 = Some (Fecal_Success, e1') ->
  Initialize m2 input_count d2 total_bytes e2 = Some (Fecal_Success, e2') ->
  Initialize m12 input_count (xor_columns d1 d2) total_bytes e12
  = Some (Fecal_Success, e12') ->
  exists b1 b2,
    Encode_output row s1 e1' = Some (Fecal_Success, Some b1)
    /\ Encode_output row s2 e2' = Some (Fecal_Success, Some b2)
    /\ Encode_output row s12 e12' = Some (Fecal_Success, Some (xor_mem b1 b2))
    /\ length b1 = length b2.
Proof.
  intros Hadd Hn HI1 HI2 HI12.
  destruct (@Initialize_Success_view m1 input_count d1 total_bytes e1 e1' Hn HI1)
    as [HR1 [HIC1 [HSB1 [HFB1 [HO1 HL1]]]]].
  destruct (@Initialize_Success_view m2 input_count d2 total_bytes e2 e2' Hn HI2)
    as [HR2 [HIC2 [HSB2 [HFB2 [HO2 HL2]]]]].
  destruct (@Initialize_Success_view m12 input_count (xor_columns d1 d2)
              total_bytes e12 e12' Hn HI12)
    as [HR12 [HIC12 [HSB12 [HFB12 [HO12 HL12]]]]].
  pose proof (Ready_facts e1' HR1) as F1.
  pose proof (Ready_facts e2' HR2) as F2.
  pose proof (ready_count F1) as Hc. pose proof (ready_final F1) as Hf.
  set (sb := SymbolBytes (Window e1')) in *.
  set (fb := FinalBytes (Window e1')) in *.
  assert (S2 : SymbolBytes (Window e2') = sb) by congruence.
  assert (S12 : SymbolBytes (Window e12') = sb) by congruence.
  assert (B2 : FinalBytes (Window e2') = fb) by congruence.
  assert (B12 : FinalBytes (Window e12') = fb) by congruence.
  rewrite HIC1 in Hc.
  (* the columns, read as symbols *)
  assert (Hcol : forall element, 0 <= element < input_count ->
            column_symbol (Window e12') element
            = xor_mem (column_symbol (Window e1') element)
                (column_symbol (Window e2') element)
            /\ length (column_symbol (Window e1') element) = Z.to_nat sb
            /\ length (column_symbol (Window e2') element) = Z.to_nat sb).
  { intros element He. split; [|split].
    - rewrite (@column_symbol_bound (Window e1') d1 element)
        by (rewrite ?HIC1; auto; lia).
      rewrite (@column_symbol_bound (Window e2') d2 element)
        by (rewrite ?HIC2, ?S2, ?B2; auto; lia).
      rewrite (@column_symbol_bound (Window e12') (xor_columns d1 d2) element)
        by (rewrite ?HIC12, ?S12, ?B12; auto; lia).
      rewrite HIC1, HIC2, HIC12, S2, S12, B2, B12.
      fold sb fb. rewrite read_xor_columns.
      destruct (element =? input_count - 1); [|reflexivity].
      rewrite firstn_xor_mem, xor_mem_app, xor_mem_zeros; [reflexivity|].
      rewrite !length_firstn, !length_read. reflexivity.
    - pose proof (@length_column_symbol e1' element F1) as L.
      rewrite HIC1 in L. specialize (L He). fold sb in L. lia.
    - pose proof (@length_column_symbol e2' element F2) as L.
      rewrite HIC2 in L. specialize (L He). rewrite S2 in L. lia. }
  (* the lane sums *)
  assert (Hlane : forall lk, In lk (selection row 0)
                             \/ In lk (selection row kColumnSumCount) ->
            lane_data e12' (fst lk) (snd lk)
            = xor_mem (lane_data e1' (fst lk) (snd lk))
                (lane_data e2' (fst lk) (snd lk))
            /\ length (lane_data e1' (fst lk) (snd lk)) = Z.to_nat sb
            /\ length (lane_data e2' (fst lk) (snd lk)) = Z.to_nat sb).
  { intros [l k] Hin. cbn [fst snd].
    assert (Hlk : 0 <= l < Zpos kColumnLaneCount /\ 0 <= k < kColumnSumCount)
      by (destruct Hin as [Hin|Hin]; apply In_selection in Hin; exact Hin).
    destruct Hlk as [Hl Hk]. unfold lane_data.
    rewrite (HL1 l k Hl Hk), (HL2 l k Hl Hk), (HL12 l k Hl Hk), S2, S12.
    fold sb. split; [apply power_sum_linear; exact Hadd|].
    pose proof (@length_power_sum d1 sb input_count l k) as L1.
    pose proof (@length_power_sum d2 sb input_count l k) as L2.
    lia. }
  (* the drawn elements *)
  assert (Hels : row_elements (Window e2') row = row_elements (Window e1') row
                 /\ row_elements (Window e12') row = row_elements (Window e1') row).
  { unfold row_elements, sparse_iterations, pairCount.
    rewrite HIC1, HIC2, HIC12. auto. }
  destruct Hels as [Hel2 Hel12].
  destruct (@row_elements_in_range (Window e1') row) as [R1 RX];
    [rewrite HIC1; lia|].
  rewrite HIC1 in R1, RX. rewrite Forall_forall in R1, RX.
  destruct (@Encode_spec e1' row s1 HR1) as [_ [Ls1 Lp1]].
  destruct (@Encode_spec e2' row s2 HR2) as [_ [Ls2 Lp2]].
  fold sb in Ls1, Lp1. rewrite S2 in Ls2, Lp2.
  (* one accumulator *)
  assert (Hacc : forall (proj : Z * Z -> Z) (base : Z),
            (forall x, In x (map proj (row_elements (Window e1') row)) ->
               0 <= x < input_count) ->
            (forall lk, In lk (selection row base) ->
               In lk (selection row 0) \/ In lk (selection row kColumnSumCount)) ->
            Z.of_nat (length (xor_all (sparse_sum (Window e1')
                                         (map proj (row_elements (Window e1') row)))
                                (selected e1' row base))) = sb ->
            Z.of_nat (length (xor_all (sparse_sum (Window e2')
                                         (map proj (row_elements (Window e2') row)))
                                (selected e2' row base))) = sb ->
            xor_all (sparse_sum (Window e12')
                       (map proj (row_elements (Window e12') row)))
              (selected e12' row base)
            = xor_mem
                (xor_all (sparse_sum (Window e1')
                            (map proj (row_elements (Window e1') row)))
                   (selected e1' row base))
                (xor_all (sparse_sum (Window e2')
                            (map proj (row_elements (Window e2') row)))
                   (selected e2' row base))).
  { intros proj base Hrange Hsel La Lb.
    rewrite length_xor_all in La, Lb.
    rewrite Hel2 in *. rewrite Hel12.
    rewrite !selected_selection.
    rewrite (@sparse_sum_linear (Window e1') (Window e2') (Window e12')
               (map proj (row_elements (Window e1') row)) (Z.to_nat sb))
      by (intros x Hx; apply Hcol; apply Hrange; exact Hx).
    rewrite (map_ext_in (fun lk => lane_data e12' (fst lk) (snd lk))
               (fun lk => xor_mem (lane_data e1' (fst lk) (snd lk))
                            (lane_data e2' (fst lk) (snd lk))))
      by (intros lk Hlk; apply Hlane; apply Hsel; exact Hlk).
    apply xor_all_linear; [lia|].
    intros lk Hlk. destruct (Hlane lk (Hsel lk Hlk)) as [_ [L1 L2]]. lia. }
  assert (Hsum : row_sum e12' row = xor_mem (row_sum e1' row) (row_sum e2' row)).
  { apply (Hacc fst 0); auto. }
  assert (Hprod : row_product e12' row
                  = xor_mem (row_product e1' row) (row_product e2' row)).
  { apply (Hacc snd kColumnSumCount); auto. }
  exists (row_symbol e1' row), (row_symbol e2' row).
  split; [apply Encode_output_spec; exact HR1|].
  split; [apply Encode_output_spec; exact HR2|].
  split.
  - rewrite Encode_output_spec by exact HR12. do 3 f_equal.
    unfold row_symbol. rewrite Hsum, Hprod, !muladd_bytes_xor.
    rewrite map_mul_xor_mem by exact Hadd.
    apply xor_mem_interchange; rewrite ?length_map; lia.
  - unfold row_symbol. rewrite !length_muladd_bytes. lia.
Qed.

(** ** Further properties: the bytes of a lane sum *)

Lemma nth_xor_mem (x y : list Z) (i : nat) :
  (i < length x)%nat -> (i < length y)%nat ->
  nth i (xor_mem x y) 0 = Z.lxor (nth i x 0) (nth i y 0).
Proof.
  revert y i. induction x as [|a x IH]; intros [|b y] i Hx Hy; cbn in *;
    try lia.
  destruct i as [|i]; [reflexivity|]. apply IH; lia.
Qed.

Lemma nth_xor_all (i : nat) (terms : list (list Z)) :
  forall base,
  (i < length base)%nat ->
  (forall t, In t terms -> (i < length t)%nat) ->
  nth i (xor_all base terms) 0
  = fold_left Z.lxor (map (fun t => nth i t 0) terms) (nth i base 0).
Proof.
  induction terms as [|t terms IH]; intros base Hb Ht.
  - reflexivity.
  - rewrite xor_all_cons. cbn [map fold_left].
    rewrite IH.
    + rewrite nth_xor_mem; [reflexivity | exact Hb |].
      apply Ht. left. reflexivity.
    + rewrite length_xor_mem. exact Hb.
    + intros t' Ht'. apply Ht. right. exact Ht'.
Qed.

Lemma nth_read (p : ptr) (bytes : Z) (i : nat) :
  (i < Z.to_nat bytes)%nat -> nth i (read p bytes) 0 = p i.
Proof.
  intro Hi. unfold read.
  rewrite (nth_indep _ 0 (p 0%nat)) by (rewrite length_map, length_seq; exact Hi).
  rewrite map_nth, seq_nth by exact Hi. reflexivity.
Qed.

(** Byte [i] of the degree-0 sum of a lane: the XOR of byte [i] of every
    column of the lane. *)
Lemma nth_power_sum_0 (input_data : nat -> ptr) (bytes input_count l : Z)
  (i : nat) :
  (i < Z.to_nat bytes)%nat ->
  nth i (power_sum input_data bytes input_count l 0) 0
  = fold_left Z.lxor
      (map (fun c => input_data (Z.to_nat c) i) (lane_columns input_count l)) 0.
Proof.
  intro Hi. unfold power_sum. rewrite nth_xor_all.
  - rewrite nth_repeat, map_map. f_equal. apply map_ext.
    intro c. unfold column_term. cbn. apply nth_read. exact Hi.
  - rewrite repeat_length. exact Hi.
  - intros t Ht. apply in_map_iff in Ht. destruct Ht as [c [E _]]. subst t.
    rewrite length_column_term. exact Hi.
Qed.

Lemma fold_lxor_shift (zs : list Z) (a : Z) :
  fold_left Z.lxor zs a = Z.lxor a (fold_left Z.lxor zs 0).
Proof.
  revert a. induction zs as [|z zs IH]; intro a; cbn.
  - rewrite Z.lxor_0_r. reflexivity.
  - rewrite (IH (Z.lxor a z)), (IH z), Z.lxor_assoc. reflexivity.
Qed.

(** Two families that differ at one index of a duplicate-free list have
    different sums. *)
Lemma fold_lxor_differs {C : Type} (f g : C -> Z) (c0 : C) (cs : list C) :
  NoDup cs -> In c0 cs ->
  (forall c, In c cs -> c <> c0 -> f c = g c) ->
  f c0 <> g c0 ->
  fold_left Z.lxor (map f cs) 0 <> fold_left Z.lxor (map g cs) 0.
Proof.
  intros Hnd Hin Hsame Hdiff.
  induction cs as [|c cs IH]; [contradiction|].
  inversion Hnd as [|c' cs' Hnotin Hnd']. subst.
  cbn [map fold_left]. rewrite !Z.lxor_0_l.
  rewrite (fold_lxor_shift _ (f c)), (fold_lxor_shift _ (g c)).
  destruct Hin as [E|Hin].
  - subst c.
    assert (Hrest : map f cs = map g cs).
    { apply map_ext_in. intros x Hx. apply Hsame; [right; exact Hx|].
      intro E. subst x. contradiction. }
    rewrite Hrest. intro H. apply Hdiff.
    apply (f_equal (fun z => Z.lxor z (fold_left Z.lxor (map g cs) 0))) in H.
    rewrite !Z.lxor_assoc, Z.lxor_nilpotent, !Z.lxor_0_r in H. exact H.
  - assert (Hc : f c = g c).
    { apply Hsame; [left; reflexivity|]. intro E. subst c. contradiction. }
    rewrite Hc. intro H. apply IH.
    + exact Hnd'.
    + exact Hin.
    + intros x Hx. apply Hsame. right. exact Hx.
    + apply (f_equal (Z.lxor (g c))) in H.
      rewrite <- !Z.lxor_assoc, Z.lxor_nilpotent, !Z.lxor_0_l in H. exact H.
Qed.

Lemma NoDup_lane_columns (input_count l : Z) :
  NoDup (lane_columns input_count l).
Proof.
  unfold lane_columns. apply NoDup_filter.
  generalize (seq_NoDup (Z.to_nat input_count) 0).
  generalize (seq 0 (Z.to_nat input_count)).
  induction 1 as [|x xs Hnotin Hnd IH]; cbn [map]; constructor; [|exact IH].
  intro Hin. apply in_map_iff in Hin. destruct Hin as [y [E Hy]].
  apply Nat2Z.inj in E. subst y. contradiction.
Qed.

(** X9. [Initialize] reads the final column over [SymbolBytes] bytes.
    When the final column is shorter than a symbol, the byte found at an
    offset from [FinalBytes] on, past the column's end, enters the
    degree-0 sum of the column's lane: two memories that differ in that
    one byte only give different lane sums. *)
Theorem Initialize_depends_on_bytes_past_final_column (m1 m2 : allocator)
  (input_count : Z) (d1 d2 : nat -> ptr) (total_bytes : Z)
  (e1 e2 e1' e2' : Encoder) (offset : nat) :
  0 <= input_count < 2 ^ 32 ->
  Initialize m1 input_count d1 total_bytes e1 = Some (Fecal_Success, e1') ->
  Initialize m2 input_count d2 total_bytes e2 = Some (Fecal_Success, e2') ->
  FinalBytes (Window e1') <= Z.of_nat offset < SymbolBytes (Window e1') ->
  (forall c, c <> Z.to_nat (input_count - 1) -> d1 c offset = d2 c offset) ->
  d1 (Z.to_nat (input_count - 1)) offset
  <> d2 (Z.to_nat (input_count - 1)) offset ->
  LaneSums e1' ((input_count - 1) mod Zpos kColumnLaneCount) 0
  <> LaneSums e2' ((input_count - 1) mod Zpos kColumnLaneCount) 0.
Proof.
  intros Hn HI1 HI2 Hoff Hsame Hdiff.
  destruct (@Initialize_Success_view m1 input_count d1 total_bytes e1 e1' Hn HI1)
    as [HR1 [HIC1 [HSB1 [_ [_ HL1]]]]].
  destruct (@Initialize_Success_view m2 input_count d2 total_bytes e2 e2' Hn HI2)
    as [_ [_ [HSB2 [_ [_ HL2]]]]].
  pose proof (ready_count (Ready_facts e1' HR1)) as Hc. rewrite HIC1 in Hc.
  set (lane := (input_count - 1) mod Zpos kColumnLaneCount).
  assert (Hlane : 0 <= lane < Zpos kColumnLaneCount)
    by (apply Z.mod_pos_bound; lia).
  rewrite (HL1 lane 0 Hlane), (HL2 lane 0 Hlane)
    by (unfold kColumnSumCount; lia).
  replace (SymbolBytes (Window e2')) with (SymbolBytes (Window e1'))
    by congruence.
  intro H. inversion H as [Hsum]. clear H.
  apply (f_equal (fun buffer => nth offset buffer 0)) in Hsum.
  rewrite !nth_power_sum_0 in Hsum by lia.
  revert Hsum.
  apply (@fold_lxor_differs Z (fun c => d1 (Z.to_nat c) offset)
           (fun c => d2 (Z.to_nat c) offset) (input_count - 1)).
  - apply NoDup_lane_columns.
  - apply In_lane_columns. split; [lia | reflexivity].
  - intros c Hin Hne. apply In_lane_columns in Hin. apply Hsame. lia.
  - exact Hdiff.
Qed.

End Proofs.

(** * The claims on concrete inputs *)

Section Concrete.

#[local] Existing Instance Sample.descriptor.

Lemma Encode_deterministic_witness :
  exists bytes,
    forall (before : list Z) (symbol : FecalSymbol),
    exists e' symbol',
      Encode_rows before symbol Sample.encoder = Some (e', symbol')
      /\ Ready e' = true
      /\ Encode_output 7 symbol' e' = Some (Fecal_Success, Some bytes).
Proof.
  apply (@Encode_deterministic Sample.descriptor Sample.malloc_ok 3
           (Sample.columns 204) 5 new_Encoder Sample.encoder 7).
  - lia.
  - vm_compute. reflexivity.
Defined.

(** C2. With three columns of a five-byte block ([SymbolBytes = 2],
    [FinalBytes = 1]), [Initialize] adds to the lane of the final column
    the byte that follows that column in the caller's memory: the second
    byte of [LaneSums[2][0]] is [204] when that byte is [204], and [0]
    when it is [0]; the symbol of row 0 changes with it. The sparse
    phase of [Encode] reads the same column as [[5; 0]]. *)
Theorem Initialize_reads_past_final_column :
  Initialize Sample.malloc_ok 3 (Sample.columns 204) 5 new_Encoder
  = Some (Fecal_Success, Sample.encoder)
  /\ SymbolBytes (Window Sample.encoder) = 2
  /\ FinalBytes (Window Sample.encoder) = 1
  /\ IsFinalColumn (Window Sample.encoder) 2 = true
  /\ LaneSums Sample.encoder 2 0 = Some [5; 204]
  /\ LaneSums (snd (Sample.initialized Sample.malloc_ok 0 new_Encoder)) 2 0
     = Some [5; 0]
  /\ Encode_output 0 Sample.blank Sample.encoder
     = Some (Fecal_Success, Some [22; 225])
  /\ Encode_output 0 Sample.blank
       (snd (Sample.initialized Sample.malloc_ok 0 new_Encoder))
     = Some (Fecal_Success, Some [22; 6])
  /\ column_symbol (Window Sample.encoder) 2 = [5; 0].
Proof. vm_compute. repeat split; reflexivity. Qed.

(** C3. With [kPairAddRate = 16], [Initialize] succeeds on [4294967295]
    columns of one byte and leaves a Ready encoder; there the 32-bit sum
    in [pairCount] wraps: [pairCount] is [0] and every row draws a single
    pair, the unrolled one, where [ceil(4294967295 / 16)] is
    [268435456]. *)
Theorem pairCount_wraps :
  exists e,
    Initialize Sample.malloc_ok 4294967295 (fun _ => Sample.memory [1] 0)
      4294967295 new_Encoder
    = Some (Fecal_Success, e)
    /\ Ready e = true
    /\ InputCount (Window e) = 4294967295
    /\ pairCount (Window e) = 0
    /\ sparse_iterations (Window e) = 1%nat
    /\ (forall row, length (row_elements (Window e) row) = 1%nat)
    /\ ceil_div (InputCount (Window e)) (Zpos kPairAddRate) = 268435456.
Proof.
  assert (HSP : SetParameters (Window new_Encoder) 4294967295 4294967295
                = (true, Sample.widest)) by (vm_compute; reflexivity).
  destruct (@Initialize_cases Sample.descriptor Sample.malloc_ok 4294967295
              (fun _ => Sample.memory [1] 0) 4294967295 new_Encoder
              Sample.widest ltac:(lia) HSP)
    as [r [e [HI [[_ Hoom]|[Hr Hs]]]]].
  - exfalso.
    destruct Hoom as [Hfail|[[e2 [_ [Hm _]]]|[e2 [g [_ [_ [Hm _]]]]]]].
    + destruct Hfail as [_ [_ [_ [_ [l [k [_ [_ [Hm _]]]]]]]]]. discriminate.
    + discriminate.
    + discriminate.
  - subst r. exists e. split; [exact HI|].
    destruct (@Initialize_Success Sample.descriptor Sample.malloc_ok 4294967295
                (fun _ => Sample.memory [1] 0) 4294967295 new_Encoder e
                ltac:(lia) HI) as [w [_ [_ HR]]].
    split; [exact HR|].
    destruct Hs as [_ [gS [gP [_ [_ [HW _]]]]]].
    assert (Hn : InputCount (Window e) = 4294967295)
      by (rewrite HW; reflexivity).
    destruct (@pairCount_wrapped Sample.descriptor (Window e) Hn) as [Hp Hi];
      [cbn; lia|].
    split; [exact Hn|]. split; [exact Hp|]. split; [exact Hi|].
    split.
    + intro row. unfold row_elements. rewrite length_draws. exact Hi.
    + rewrite Hn. reflexivity.
Qed.

Lemma dense_phase_selects_witness :
  let sum := XORSummer_Initialize [1; 2] 2 in
  let prod := {| DestBuffer := [3; 4]; SummerBytes := 2; Waiting := Some [9; 9] |} in
  exists sum' prod' sumF prodF,
    dense_phase 7 Sample.encoder (sum, prod) = Some (sum', prod')
    /\ XORSummer_Finalize sum' = Some sumF
    /\ XORSummer_Finalize prod' = Some prodF
    /\ DestBuffer sumF = xor_all (flushed sum) (selected Sample.encoder 7 0)
    /\ DestBuffer prodF
       = xor_all (flushed prod) (selected Sample.encoder 7 kColumnSumCount).
Proof.
  apply (@dense_phase_selects Sample.descriptor Sample.encoder 7).
  - vm_compute. reflexivity.
  - unfold summer_ok. vm_compute. repeat split; discriminate.
  - unfold summer_ok. vm_compute. repeat split; discriminate.
Defined.

Lemma Encode_final_combination_witness :
  exists outputSum outputProduct sum prod sumF prodF out,
    Sum Sample.encoder = Some outputSum
    /\ Product Sample.encoder = Some outputProduct
    /\ (st <- sparse_phase 7 (Window Sample.encoder) outputSum outputProduct ;;
        dense_phase 7 Sample.encoder st) = Some (sum, prod)
    /\ XORSummer_Finalize sum = Some sumF /\ Waiting sumF = None
    /\ XORSummer_Finalize prod = Some prodF /\ Waiting prodF = None
    /\ Encode_output 7 Sample.blank Sample.encoder
       = Some (Fecal_Success, Some out)
    /\ Z.of_nat (length out) = SymbolBytes (Window Sample.encoder)
    /\ (forall i, (i < length out)%nat ->
          nth i out 0
          = Z.lxor (nth i (DestBuffer sumF) 0)
              (gf256_mul (GetRowValue 7) (nth i (DestBuffer prodF) 0)))
    /\ GetRowValue 7 <> 0.
Proof.
  apply (@Encode_final_combination Sample.descriptor Sample.encoder 7 Sample.blank).
  vm_compute. reflexivity.
Defined.

Lemma Initialize_power_sums_witness :
  exists w e1,
    SetParameters (Window new_Encoder) 3 5 = (true, w)
    /\ SymbolBytes (Window Sample.encoder) = SymbolBytes w
    /\ allocate_lane_sums Sample.malloc_ok (SymbolBytes w)
         (with_window new_Encoder w (Sample.columns 204))
       = Some (Continue e1)
    /\ forall l k,
         0 <= l < Zpos kColumnLaneCount -> 0 <= k < kColumnSumCount ->
         LaneSums e1 l k = Some (repeat 0 (Z.to_nat (SymbolBytes w)))
         /\ LaneSums Sample.encoder l k
            = Some (power_sum (Sample.columns 204) (SymbolBytes w) 3 l k).
Proof.
  apply (@Initialize_power_sums Sample.descriptor Sample.malloc_ok 3
           (Sample.columns 204) 5 new_Encoder Sample.encoder).
  - lia.
  - vm_compute. reflexivity.
Defined.

(** C7. [Encode] after an [Initialize] that ran out of memory on a Ready
    encoder. The sample encoder is Ready after a successful [Initialize].
    A second [Initialize] of the same block during which the allocation of
    [Sum] is refused returns OutOfMemory with [Sum] null and [Product] as
    the first call left it: the test [!Product.Data] lets every later
    [Encode] through, which then writes through the null [Sum]: it
    returns neither InvalidInput nor Success, whether the encoder counts
    as initialized or not. When the last lane sum is refused instead,
    [Encode] of row 4 returns Success after the failed call, with a
    symbol that is not the one of the Ready encoder; when
    [Product] is refused, [Encode] returns InvalidInput although an
    [Initialize] has succeeded. *)
Theorem Encode_after_failed_Initialize :
  lifecycle Sample.encoder true
  /\ Ready Sample.encoder = true
  /\ (exists e,
        Initialize (Sample.malloc_refusing SumBuffer) 3 (Sample.columns 204) 5
          Sample.encoder = Some (Fecal_OutOfMemory, e)
        /\ lifecycle e true
        /\ Product e = Product Sample.encoder
        /\ Product e <> None
        /\ Sum e = None
        /\ (forall row symbol, Encode row symbol e = None)
        /\ (forall initialized row symbol,
              ~ refuses_iff_uninitialized e initialized row symbol))
  /\ (exists e,
        Initialize (Sample.malloc_refusing (LaneSumBuffer 7 2)) 3
          (Sample.columns 204) 5 Sample.encoder = Some (Fecal_OutOfMemory, e)
        /\ lifecycle e true
        /\ Product e <> None
        /\ Encode_output 4 Sample.blank e = Some (Fecal_Success, Some [4; 8])
        /\ Encode_output 4 Sample.blank Sample.encoder
           = Some (Fecal_Success, Some [125; 134])
        /\ ~ refuses_iff_uninitialized e false 4 Sample.blank)
  /\ (exists e,
        Initialize (Sample.malloc_refusing ProductBuffer) 3 (Sample.columns 204)
          5 Sample.encoder = Some (Fecal_OutOfMemory, e)
        /\ lifecycle e true
        /\ (forall row symbol,
              Encode row symbol e = Some (Fecal_InvalidInput, e, symbol))
        /\ (forall row symbol, ~ refuses_iff_uninitialized e true row symbol)).
Proof.
  assert (L : lifecycle Sample.encoder true).
  { apply (@lifecycle_Initialize_succeeded Sample.descriptor new_Encoder false
             Sample.malloc_ok 3 (Sample.columns 204) 5 Sample.encoder).
    - apply lifecycle_new.
    - lia.
    - vm_compute. reflexivity. }
  split; [exact L|]. split; [vm_compute; reflexivity|].
  split; [|split].
  - assert (HI : Initialize (Sample.malloc_refusing SumBuffer) 3
                   (Sample.columns 204) 5 Sample.encoder
                 = Some (Fecal_OutOfMemory,
                         snd (Sample.initialized (Sample.malloc_refusing SumBuffer)
                                204 Sample.encoder)))
      by (vm_compute; reflexivity).
    eexists. split; [exact HI|].
    split.
    { apply (@lifecycle_Initialize_no_memory Sample.descriptor Sample.encoder true
               (Sample.malloc_refusing SumBuffer) 3 (Sample.columns 204) 5 _ L);
        [lia | exact HI]. }
    split; [vm_compute; reflexivity|].
    split; [vm_compute; discriminate|].
    split; [vm_compute; reflexivity|].
    assert (HE : forall row symbol,
               Encode row symbol
                 (snd (Sample.initialized (Sample.malloc_refusing SumBuffer) 204
                         Sample.encoder)) = None).
    { intros row symbol. unfold Encode.
      replace (Product (snd (Sample.initialized (Sample.malloc_refusing SumBuffer)
                               204 Sample.encoder)))
        with (Some [205; 205]) by (vm_compute; reflexivity).
      replace (Sum (snd (Sample.initialized (Sample.malloc_refusing SumBuffer)
                           204 Sample.encoder)))
        with (@None (list Z)) by (vm_compute; reflexivity).
      reflexivity. }
    split; [exact HE|].
    intros b row symbol [r [e' [symbol' [E _]]]].
    rewrite HE in E. discriminate.
  - assert (HI : Initialize (Sample.malloc_refusing (LaneSumBuffer 7 2)) 3
                   (Sample.columns 204) 5 Sample.encoder
                 = Some (Fecal_OutOfMemory,
                         snd (Sample.initialized
                                (Sample.malloc_refusing (LaneSumBuffer 7 2)) 204
                                Sample.encoder)))
      by (vm_compute; reflexivity).
    eexists. split; [exact HI|].
    split.
    { apply (@lifecycle_Initialize_no_memory Sample.descriptor Sample.encoder true
               (Sample.malloc_refusing (LaneSumBuffer 7 2)) 3 (Sample.columns 204)
               5 _ L); [lia | exact HI]. }
    split; [vm_compute; discriminate|].
    split; [vm_compute; reflexivity|].
    split; [vm_compute; reflexivity|].
    intros [r [e' [symbol' [E [[_ Hr] _]]]]].
    specialize (Hr eq_refl). subst r.
    apply (f_equal (option_map (fun out => fst (fst out)))) in E.
    vm_compute in E. discriminate.
  - assert (HI : Initialize (Sample.malloc_refusing ProductBuffer) 3
                   (Sample.columns 204) 5 Sample.encoder
                 = Some (Fecal_OutOfMemory,
                         snd (Sample.initialized
                                (Sample.malloc_refusing ProductBuffer) 204
                                Sample.encoder)))
      by (vm_compute; reflexivity).
    eexists. split; [exact HI|].
    split.
    { apply (@lifecycle_Initialize_no_memory Sample.descriptor Sample.encoder true
               (Sample.malloc_refusing ProductBuffer) 3 (Sample.columns 204)
               5 _ L); [lia | exact HI]. }
    assert (HE : forall row symbol,
               Encode row symbol
                 (snd (Sample.initialized (Sample.malloc_refusing ProductBuffer)
                         204 Sample.encoder))
               = Some (Fecal_InvalidInput,
                       snd (Sample.initialized
                              (Sample.malloc_refusing ProductBuffer) 204
                              Sample.encoder), symbol)).
    { intros row symbol. apply Encode_uninitialized. vm_compute. reflexivity. }
    split; [exact HE|].
    intros row symbol [r [e' [symbol' [E [[Hr _] _]]]]].
    rewrite HE in E. inversion E. subst r.
    specialize (Hr eq_refl). discriminate.
Qed.

(** C8, as stated, fails. On a new encoder, with the second allocation
    refused, [Initialize] returns OutOfMemory and the first lane sum is
    still allocated; on a Ready encoder, with the last lane sum refused,
    [Initialize] returns OutOfMemory and [Encode] of row 4 then returns
    Success. *)
Lemma Initialize_failure_is_not_clean :
  (allocation_refused (Sample.malloc_refusing (LaneSumBuffer 0 1))
   /\ fst (Sample.initialized (Sample.malloc_refusing (LaneSumBuffer 0 1)) 204
             new_Encoder) = Fecal_OutOfMemory
   /\ LaneSums (snd (Sample.initialized (Sample.malloc_refusing (LaneSumBuffer 0 1))
                       204 new_Encoder)) 0 0 = Some [0; 0]
   /\ ~ failure_is_clean (Sample.malloc_refusing (LaneSumBuffer 0 1)) 3
          (Sample.columns 204) 5 new_Encoder)
  /\ (Ready Sample.encoder = true
      /\ allocation_refused (Sample.malloc_refusing (LaneSumBuffer 7 2))
      /\ fst (Sample.initialized (Sample.malloc_refusing (LaneSumBuffer 7 2)) 204
                Sample.encoder) = Fecal_OutOfMemory
      /\ option_map (fun out => fst (fst out))
           (Encode 4 Sample.blank
              (snd (Sample.initialized (Sample.malloc_refusing (LaneSumBuffer 7 2))
                      204 Sample.encoder)))
         = Some Fecal_Success
      /\ ~ failure_is_clean (Sample.malloc_refusing (LaneSumBuffer 7 2)) 3
             (Sample.columns 204) 5 Sample.encoder).
Proof.
  split.
  - split.
    { left. exists 0, 1. repeat split; vm_compute; congruence. }
    split; [vm_compute; reflexivity|]. split; [vm_compute; reflexivity|].
    intros [e [HI [[HL _] _]]].
    assert (E : Initialize (Sample.malloc_refusing (LaneSumBuffer 0 1)) 3
                  (Sample.columns 204) 5 new_Encoder
                = Some (Sample.initialized (Sample.malloc_refusing (LaneSumBuffer 0 1))
                          204 new_Encoder))
      by (vm_compute; reflexivity).
    rewrite E in HI. injection HI as He.
    assert (H00 : LaneSums e 0 0 = None)
      by (apply HL; split; vm_compute; congruence).
    rewrite <- He in H00. vm_compute in H00. discriminate.
  - split; [vm_compute; reflexivity|].
    split.
    { left. exists 7, 2. repeat split; vm_compute; congruence. }
    split; [vm_compute; reflexivity|]. split; [vm_compute; reflexivity|].
    intros [e [HI [_ HE]]].
    assert (E : Initialize (Sample.malloc_refusing (LaneSumBuffer 7 2)) 3
                  (Sample.columns 204) 5 Sample.encoder
                = Some (Sample.initialized (Sample.malloc_refusing (LaneSumBuffer 7 2))
                          204 Sample.encoder))
      by (vm_compute; reflexivity).
    rewrite E in HI. injection HI as He.
    specialize (HE 4 Sample.blank).
    apply (f_equal (option_map (fun out => fst (fst out)))) in HE.
    rewrite <- He in HE. vm_compute in HE. discriminate.
Qed.

Lemma Initialize_OutOfMemory_witness :
  let malloc := Sample.malloc_refusing (LaneSumBuffer 0 1) in
  let w := snd (SetParameters (Window new_Encoder) 3 5) in
  exists e,
    Initialize malloc 3 (Sample.columns 204) 5 new_Encoder
    = Some (Fecal_OutOfMemory, e)
    /\ Product e = None
    /\ (forall row symbol,
          Encode row symbol e = Some (Fecal_InvalidInput, e, symbol))
    /\ (forall l k,
          0 <= l < Zpos kColumnLaneCount -> 0 <= k < kColumnSumCount ->
          (forall l' k', 0 <= l' -> 0 <= k' < kColumnSumCount ->
             3 * l' + k' <= 3 * l + k ->
             malloc (LaneSumBuffer l' k') <> None) ->
          LaneSums e l k = Some (repeat 0 (Z.to_nat (SymbolBytes w))))
    /\ ((forall l k,
           0 <= l < Zpos kColumnLaneCount -> 0 <= k < kColumnSumCount ->
           malloc (LaneSumBuffer l k) <> None) ->
        forall garbage, malloc SumBuffer = Some garbage ->
        Sum e = Some (read garbage (SymbolBytes w))).
Proof.
  apply (@Initialize_OutOfMemory Sample.descriptor
           (Sample.malloc_refusing (LaneSumBuffer 0 1)) 3 (Sample.columns 204) 5
           new_Encoder (snd (SetParameters (Window new_Encoder) 3 5))).
  - lia.
  - reflexivity.
  - vm_compute. reflexivity.
  - left. exists 0, 1. repeat split; vm_compute; congruence.
Defined.

Lemma Encode_frame_witness :
  exists e' symbol',
    Encode 7 Sample.blank Sample.encoder = Some (Fecal_Success, e', symbol')
    /\ InputCount (Window e') = InputCount (Window Sample.encoder)
    /\ SymbolBytes (Window e') = SymbolBytes (Window Sample.encoder)
    /\ FinalBytes (Window e') = FinalBytes (Window Sample.encoder)
    /\ OriginalData (Window e') = OriginalData (Window Sample.encoder)
    /\ LaneSums e' = LaneSums Sample.encoder
    /\ e' = set_Product (set_Sum Sample.encoder (Sum e')) (Product e').
Proof.
  apply (@Encode_frame Sample.descriptor Sample.encoder 7 Sample.blank).
  vm_compute. reflexivity.
Defined.

Lemma sparse_phase_safe_witness :
  Ready Sample.encoder = true
  /\ 1 <= ceil_div (InputCount (Window Sample.encoder)) (Zpos kPairAddRate)
  /\ (1 <= length (row_elements (Window Sample.encoder) 7))%nat
  /\ exists e' symbol',
       Encode 7 Sample.blank Sample.encoder = Some (Fecal_Success, e', symbol').
Proof.
  assert (HR : Ready Sample.encoder = true) by (vm_compute; reflexivity).
  split; [exact HR|].
  destruct (@sparse_phase_safe Sample.descriptor Sample.encoder 7 Sample.blank HR)
    as [H1 [_ [H3 [_ [_ [_ H7]]]]]].
  auto.
Defined.

(** ** The further properties on concrete inputs *)

Lemma Initialize_outcome_witness :
  exists r e,
    Initialize (Sample.malloc_refusing SumBuffer) 3 (Sample.columns 204) 5
      Sample.encoder = Some (r, e)
    /\ (r = Fecal_InvalidInput
        <-> fst (SetParameters (Window Sample.encoder) 3 5) = false)
    /\ (r = Fecal_OutOfMemory
        <-> fst (SetParameters (Window Sample.encoder) 3 5) = true
            /\ allocation_refused (Sample.malloc_refusing SumBuffer))
    /\ (r = Fecal_Success
        <-> fst (SetParameters (Window Sample.encoder) 3 5) = true
            /\ ~ allocation_refused (Sample.malloc_refusing SumBuffer)).
Proof.
  apply (@Initialize_outcome Sample.descriptor (Sample.malloc_refusing SumBuffer)
           3 (Sample.columns 204) 5 Sample.encoder).
  lia.
Defined.

Lemma Initialize_OutOfMemory_Product_witness :
  let malloc := Sample.malloc_refusing (LaneSumBuffer 7 2) in
  let e := snd (Sample.initialized malloc 204 Sample.encoder) in
  Initialize malloc 3 (Sample.columns 204) 5 Sample.encoder
  = Some (Fecal_OutOfMemory, e)
  /\ Product e = Product Sample.encoder
  /\ Product Sample.encoder <> None.
Proof.
  assert (HI : Initialize (Sample.malloc_refusing (LaneSumBuffer 7 2)) 3
                 (Sample.columns 204) 5 Sample.encoder
               = Some (Fecal_OutOfMemory,
                       snd (Sample.initialized
                              (Sample.malloc_refusing (LaneSumBuffer 7 2)) 204
                              Sample.encoder)))
    by (vm_compute; reflexivity).
  split; [exact HI|].
  destruct (@Initialize_OutOfMemory_Product Sample.descriptor
              (Sample.malloc_refusing (LaneSumBuffer 7 2)) 3 (Sample.columns 204)
              5 Sample.encoder _ ltac:(lia) HI) as [Hstale _].
  destruct Hstale as [HP _].
  - left. exists 7, 2. repeat split; vm_compute; congruence.
  - split; [exact HP|]. vm_compute. discriminate.
Defined.

Lemma Encode_depends_on_columns_only_witness :
  exists bytes,
    Encode_output 7 Sample.blank Sample.encoder
    = Some (Fecal_Success, Some bytes)
    /\ Encode_output 7 Sample.blank
         (snd (Sample.initialized_from Sample.malloc_other Sample.moved_columns
                 Sample.encoder))
       = Some (Fecal_Success, Some bytes).
Proof.
  apply (@Encode_depends_on_columns_only Sample.descriptor Sample.malloc_ok
           Sample.malloc_other 3 (Sample.columns 204) Sample.moved_columns 5
           new_Encoder Sample.encoder).
  - lia.
  - vm_compute. reflexivity.
  - vm_compute. reflexivity.
  - intros c Hc. destruct c as [|[|[|c]]]; vm_compute; reflexivity.
Defined.

Lemma lane_sums_depend_on_own_columns_witness :
  LaneSums Sample.encoder 0 1
  = LaneSums (snd (Sample.initialized_from Sample.malloc_other
                     (fun c => match c with
                               | O => Sample.columns 204 O
                               | _ => Sample.other_columns c
                               end)
                     Sample.encoder)) 0 1.
Proof.
  apply (@lane_sums_depend_on_own_columns Sample.descriptor Sample.malloc_ok
           Sample.malloc_other 3 (Sample.columns 204)
           (fun c => match c with
                     | O => Sample.columns 204 O
                     | _ => Sample.other_columns c
                     end)
           5 new_Encoder Sample.encoder).
  - lia.
  - vm_compute. reflexivity.
  - vm_compute. reflexivity.
  - vm_compute. split; congruence.
  - vm_compute. split; congruence.
  - intros c Hc Hm. change (Zpos kColumnLaneCount) with 8 in Hm.
    rewrite Z.mod_small in Hm by lia. subst c. reflexivity.
Defined.

Lemma lanes_without_columns_stay_zero_witness :
  LaneSums Sample.encoder 5 2
  = Some (repeat 0 (Z.to_nat (SymbolBytes (Window Sample.encoder)))).
Proof.
  apply (@lanes_without_columns_stay_zero Sample.descriptor Sample.malloc_ok 3
           (Sample.columns 204) 5 new_Encoder Sample.encoder).
  - lia.
  - vm_compute. reflexivity.
  - vm_compute. split; congruence.
  - vm_compute. split; congruence.
Defined.

Lemma mod_256_lxor (a b : Z) :
  Z.lxor a b mod 256 = Z.lxor (a mod 256) (b mod 256).
Proof.
  change 256 with (2 ^ 8). rewrite <- !Z.land_ones by lia.
  apply Z.bits_inj'. intros n Hn.
  rewrite !Z.lxor_spec, !Z.land_spec, Z.lxor_spec.
  destruct (Z.testbit a n), (Z.testbit b n), (Z.testbit (Z.ones 8) n);
    reflexivity.
Qed.

Lemma mul_bits_additive (bits : nat) :
  forall a b b',
  Sample.mul_bits bits a (Z.lxor b b')
  = Z.lxor (Sample.mul_bits bits a b) (Sample.mul_bits bits a b').
Proof.
  induction bits as [|bits IH]; intros a b b'.
  - reflexivity.
  - cbn [Sample.mul_bits]. rewrite Z.shiftr_lxor, IH.
    rewrite <- !Z.bit0_odd, Z.lxor_spec.
    apply Z.bits_inj'. intros n Hn. rewrite !Z.lxor_spec.
    destruct (Z.testbit b 0), (Z.testbit b' 0); cbn [xorb];
      rewrite ?Z.bits_0;
      destruct (Z.testbit a n),
        (Z.testbit (Sample.mul_bits bits (Sample.xtime a) (Z.shiftr b 1)) n),
        (Z.testbit (Sample.mul_bits bits (Sample.xtime a) (Z.shiftr b' 1)) n);
      reflexivity.
Qed.

(** The sample table is additive in the data byte. *)
Lemma Sample_table_additive : @additive_table Sample.descriptor.
Proof.
  intros y a b.
  change (Sample.mul y (Z.lxor a b)
          = Z.lxor (Sample.mul y a) (Sample.mul y b)).
  unfold Sample.mul. rewrite mod_256_lxor. apply mul_bits_additive.
Qed.

Lemma Encode_linear_witness :
  exists b1 b2,
    Encode_output 7 Sample.blank Sample.encoder = Some (Fecal_Success, Some b1)
    /\ Encode_output 7 Sample.blank
         (snd (Sample.initialized_from Sample.malloc_ok Sample.other_columns
                 new_Encoder))
       = Some (Fecal_Success, Some b2)
    /\ Encode_output 7 Sample.blank
         (snd (Sample.initialized_from Sample.malloc_ok
                 (xor_columns (Sample.columns 204) Sample.other_columns)
                 new_Encoder))
       = Some (Fecal_Success, Some (xor_mem b1 b2))
    /\ length b1 = length b2.
Proof.
  apply (@Encode_linear Sample.descriptor Sample.malloc_ok Sample.malloc_ok
           Sample.malloc_ok 3 (Sample.columns 204) Sample.other_columns 5
           new_Encoder new_Encoder new_Encoder).
  - exact Sample_table_additive.
  - lia.
  - vm_compute. reflexivity.
  - vm_compute. reflexivity.
  - vm_compute. reflexivity.
Defined.

Lemma Initialize_depends_on_bytes_past_final_column_witness :
  LaneSums Sample.encoder 2 0
  <> LaneSums
       (snd (Sample.initialized_from Sample.malloc_ok
               (fun c => match c with
                         | 2%nat => Sample.memory [5] 0
                         | _ => Sample.columns 204 c
                         end)
               new_Encoder)) 2 0.
Proof.
  apply (@Initialize_depends_on_bytes_past_final_column Sample.descriptor
           Sample.malloc_ok Sample.malloc_ok 3 (Sample.columns 204)
           (fun c => match c with
                     | 2%nat => Sample.memory [5] 0
                     | _ => Sample.columns 204 c
                     end)
           5 new_Encoder new_Encoder Sample.encoder _ 1%nat).
  - lia.
  - vm_compute. reflexivity.
  - vm_compute. reflexivity.
  - vm_compute. split; congruence.
  - intros c Hc. destruct c as [|[|[|c]]]; try reflexivity.
    exfalso. apply Hc. reflexivity.
  - vm_compute. discriminate.
Defined.

End Concrete.
